(** * Paint-App: the shape model and the canvas of [Source.cpp]

    A shallow embedding of the three shape classes ([Circle], [Square],
    [FreehandLine]) and of [PaintCanvas], followed by the properties of the
    drawing protocol.  A second model of the canvas keeps the pointers and
    the heap, for the destructor; the menu of [MyApp::OnInit] closes the
    definitions.

    Conventions of the embedding.
    - A C++ [int] is a [Z]; the program does no arithmetic on coordinates or
      sizes, so no wrap-around occurs on them.  The only arithmetic is
      [rand() % 256], written with [Z.rem] (C++ [%] truncates), and the
      conversion of the result to the [unsigned char] channel of a colour,
      written [to_uchar].
    - A [wxColor] is its red, green and blue channels; every colour of
      the program is opaque.
    - A [wxDC] is modelled by the list of calls made on it, in call order;
      the point count passed to [DrawLines] is the vector's size.
    - [Shape*] values are modelled by the shapes themselves.  This is
      faithful here: a pointer is stored in [shapes] only at the moment it
      leaves [currentLine] / [currentCircle] / [currentSquare], so no shape
      is ever reachable through two fields between two handlers.
    - [rand()] reads a randomness source that is passed explicitly.
    - [Refresh()] increments a counter of redraw requests. *)

From Stdlib Require Import ZArith List Bool Lia.
From Stdlib Require String.
Import String.StringSyntax.
Import ListNotations.
Open Scope Z_scope.
Delimit Scope string_scope with string.

(** ** Toolkit values *)

Record wxPoint : Type := mkPoint { px : Z; py : Z }.

Record wxSize : Type := mkSize { width : Z; height : Z }.

Record wxColor : Type := mkColor { red : Z; green : Z; blue : Z }.

(** Conversion of an [int] argument to an [unsigned char] colour channel. *)
Definition to_uchar (v : Z) : Z := v mod 256.

(** The constructor [wxColor(r, g, b)]. *)
Definition wxColor_rgb (r g b : Z) : wxColor :=
  mkColor (to_uchar r) (to_uchar g) (to_uchar b).

Definition wxBLACK : wxColor := wxColor_rgb 0 0 0.
Definition wxWHITE : wxColor := wxColor_rgb 255 255 255.
Definition wxRED : wxColor := wxColor_rgb 255 0 0.
Definition wxGREEN : wxColor := wxColor_rgb 0 255 0.
Definition wxBLUE : wxColor := wxColor_rgb 0 0 255.

(** ** The device context, as a log of calls *)

Inductive dc_call : Type :=
| SetBrush (c : wxColor)
| SetPen (c : wxColor) (w : Z)
| DrawCircle (center : wxPoint) (radius : Z)
| DrawRectangle (topLeft : wxPoint) (size : wxSize)
| DrawLines (n : nat) (pts : list wxPoint).

(** The calls that put marks on the surface; [SetBrush] and [SetPen] only
    select the colour of later marks. *)
Definition is_draw_call (k : dc_call) : bool :=
  match k with
  | SetBrush _ | SetPen _ _ => false
  | DrawCircle _ _ | DrawRectangle _ _ | DrawLines _ _ => true
  end.

Definition draw_calls (log : list dc_call) : list dc_call :=
  filter is_draw_call log.

(** The segments [DrawLines(n, pts)] joins: each of the first [n] points
    to its successor. *)
Fixpoint segments (pts : list wxPoint) : list (wxPoint * wxPoint) :=
  match pts with
  | p :: (q :: _) as rest => (p, q) :: segments rest
  | _ => []
  end.

Definition segments_of (k : dc_call) : list (wxPoint * wxPoint) :=
  match k with
  | DrawLines n pts => segments (firstn n pts)
  | _ => []
  end.

(** A chain of segments is connected when each one starts where the
    previous one ended. *)
Fixpoint connected (segs : list (wxPoint * wxPoint)) : Prop :=
  match segs with
  | s :: ((t :: _) as rest) => snd s = fst t /\ connected rest
  | _ => True
  end.

(** ** The randomness source behind [rand()] *)

Record RandSrc : Type := mkRand { draws : nat -> Z; cursor : nat }.

Definition rand (g : RandSrc) : Z * RandSrc :=
  (draws g (cursor g), mkRand (draws g) (S (cursor g))).

(** C++ leaves the evaluation order of the three arguments of
    [wxColor(rand() % 256, rand() % 256, rand() % 256)] to the compiler.
    [Order_XYZ] says that the first value drawn goes to channel X, the
    second to Y and the third to Z. *)
Inductive eval_order : Type :=
| Order_RGB | Order_RBG | Order_GRB | Order_GBR | Order_BRG | Order_BGR.

(** The (red, green, blue) arguments obtained from three successive
    values [v0], [v1], [v2]. *)
Definition assign_args (ord : eval_order) (v0 v1 v2 : Z) : Z * Z * Z :=
  match ord with
  | Order_RGB => (v0, v1, v2)
  | Order_RBG => (v0, v2, v1)
  | Order_GRB => (v1, v0, v2)
  | Order_GBR => (v2, v0, v1)
  | Order_BRG => (v1, v2, v0)
  | Order_BGR => (v2, v1, v0)
  end.

(** ** Shapes *)

Module Circle.

Record t : Type := new { center : wxPoint; radius : Z; color : wxColor }.

Definition Draw (s : t) : list dc_call :=
  [SetBrush (color s); DrawCircle (center s) (radius s)].

Definition SetColor (c : wxColor) (s : t) : t :=
  new (center s) (radius s) c.

End Circle.

Module Square.

Record t : Type := new { topLeft : wxPoint; sideLength : Z; color : wxColor }.

Definition Draw (s : t) : list dc_call :=
  [SetBrush (color s);
   DrawRectangle (topLeft s) (mkSize (sideLength s) (sideLength s))].

Definition SetColor (c : wxColor) (s : t) : t :=
  new (topLeft s) (sideLength s) c.

End Square.

Module FreehandLine.

Record t : Type :=
  mk { points : list wxPoint; color : wxColor; rainbowMode : bool }.

(** The constructor [FreehandLine(color, rainbowMode)]: no points yet.
    The second argument defaults to [false] at the call sites that omit it. *)
Definition new (c : wxColor) (rainbow : bool) : t := mk [] c rainbow.

Definition AddPoint (p : wxPoint) (l : t) : t :=
  mk (points l ++ [p]) (color l) (rainbowMode l).

Definition Draw (l : t) : list dc_call :=
  SetPen (color l) 2 ::
  (if (1 <? length (points l))%nat
   then [DrawLines (length (points l)) (points l)]
   else []).

Definition SetColor (c : wxColor) (l : t) : t :=
  mk (points l) c (rainbowMode l).

Definition UpdateRainbowColor (ord : eval_order) (l : t) (g : RandSrc)
  : t * RandSrc :=
  if rainbowMode l then
    let '(v0, g0) := rand g in
    let '(v1, g1) := rand g0 in
    let '(v2, g2) := rand g1 in
    let '(r, gr, b) :=
      assign_args ord (Z.rem v0 256) (Z.rem v1 256) (Z.rem v2 256) in
    (mk (points l) (wxColor_rgb r gr b) (rainbowMode l), g2)
  else (l, g).

End FreehandLine.

(** The class hierarchy under [Shape], as a tagged union; the two virtual
    methods dispatch on the tag. *)
Inductive Shape : Type :=
| ACircle (s : Circle.t)
| ASquare (s : Square.t)
| ALine (l : FreehandLine.t).

Definition Shape_Draw (s : Shape) : list dc_call :=
  match s with
  | ACircle c => Circle.Draw c
  | ASquare q => Square.Draw q
  | ALine l => FreehandLine.Draw l
  end.

Definition Shape_SetColor (c : wxColor) (s : Shape) : Shape :=
  match s with
  | ACircle k => ACircle (Circle.SetColor c k)
  | ASquare q => ASquare (Square.SetColor c q)
  | ALine l => ALine (FreehandLine.SetColor c l)
  end.


(** ** The canvas *)

Module PaintCanvas.

Record t : Type := mk {
  shapes : list Shape;
  currentLine : option FreehandLine.t;
  currentCircle : option Circle.t;
  currentSquare : option Square.t;
  currentColor : wxColor;
  rainbowMode : bool;
  eraserMode : bool;
  circleMode : bool;
  squareMode : bool;
  shapeSize : Z;
  refreshes : nat
}.

(** Assignments to single members. *)

Definition set_shapes (v : list Shape) (c : t) : t :=
  mk v (currentLine c) (currentCircle c) (currentSquare c) (currentColor c)
     (rainbowMode c) (eraserMode c) (circleMode c) (squareMode c)
     (shapeSize c) (refreshes c).

Definition set_currentLine (v : option FreehandLine.t) (c : t) : t :=
  mk (shapes c) v (currentCircle c) (currentSquare c) (currentColor c)
     (rainbowMode c) (eraserMode c) (circleMode c) (squareMode c)
     (shapeSize c) (refreshes c).

Definition set_currentCircle (v : option Circle.t) (c : t) : t :=
  mk (shapes c) (currentLine c) v (currentSquare c) (currentColor c)
     (rainbowMode c) (eraserMode c) (circleMode c) (squareMode c)
     (shapeSize c) (refreshes c).

Definition set_currentSquare (v : option Square.t) (c : t) : t :=
  mk (shapes c) (currentLine c) (currentCircle c) v (currentColor c)
     (rainbowMode c) (eraserMode c) (circleMode c) (squareMode c)
     (shapeSize c) (refreshes c).

Definition set_currentColor (v : wxColor) (c : t) : t :=
  mk (shapes c) (currentLine c) (currentCircle c) (currentSquare c) v
     (rainbowMode c) (eraserMode c) (circleMode c) (squareMode c)
     (shapeSize c) (refreshes c).

Definition set_rainbowMode (v : bool) (c : t) : t :=
  mk (shapes c) (currentLine c) (currentCircle c) (currentSquare c)
     (currentColor c) v (eraserMode c) (circleMode c) (squareMode c)
     (shapeSize c) (refreshes c).

Definition set_eraserMode (v : bool) (c : t) : t :=
  mk (shapes c) (currentLine c) (currentCircle c) (currentSquare c)
     (currentColor c) (rainbowMode c) v (circleMode c) (squareMode c)
     (shapeSize c) (refreshes c).

Definition set_circleMode (v : bool) (c : t) : t :=
  mk (shapes c) (currentLine c) (currentCircle c) (currentSquare c)
     (currentColor c) (rainbowMode c) (eraserMode c) v (squareMode c)
     (shapeSize c) (refreshes c).

Definition set_squareMode (v : bool) (c : t) : t :=
  mk (shapes c) (currentLine c) (currentCircle c) (currentSquare c)
     (currentColor c) (rainbowMode c) (eraserMode c) (circleMode c) v
     (shapeSize c) (refreshes c).

(** [Refresh()]: one more redraw request. *)
Definition Refresh (c : t) : t :=
  mk (shapes c) (currentLine c) (currentCircle c) (currentSquare c)
     (currentColor c) (rainbowMode c) (eraserMode c) (circleMode c)
     (squareMode c) (shapeSize c) (S (refreshes c)).

(** [shapes.push_back(s)]. *)
Definition push_back (s : Shape) (c : t) : t :=
  set_shapes (shapes c ++ [s]) c.

(** The constructor: the default member initialisers, then
    [currentColor = *wxBLACK].  The colour given to [mk] stands for the
    default-constructed [wxColor] that the assignment overwrites. *)
Definition new : t :=
  set_currentColor wxBLACK
    (mk [] None None None (mkColor 0 0 0) false false false false 50 0).

Definition draw_opt {A : Type} (draw : A -> list dc_call) (o : option A)
  : list dc_call :=
  match o with
  | Some s => draw s
  | None => []
  end.

Definition OnPaint (c : t) : list dc_call :=
  flat_map Shape_Draw (shapes c)
  ++ draw_opt FreehandLine.Draw (currentLine c)
  ++ draw_opt Circle.Draw (currentCircle c)
  ++ draw_opt Square.Draw (currentSquare c).

Definition OnLeftDown (pos : wxPoint) (c : t) : t :=
  let c1 :=
    if circleMode c then
      let k := Circle.new pos (shapeSize c) (currentColor c) in
      Refresh
        (set_currentCircle None
           (push_back (ACircle k) (set_currentCircle (Some k) c)))
    else if squareMode c then
      let q := Square.new pos (shapeSize c) (currentColor c) in
      Refresh
        (set_currentSquare None
           (push_back (ASquare q) (set_currentSquare (Some q) c)))
    else if eraserMode c then
      set_currentLine (Some (FreehandLine.new wxWHITE false)) c
    else
      set_currentLine
        (Some (FreehandLine.new (currentColor c) (rainbowMode c))) c in
  let c2 :=
    match currentLine c1 with
    | Some l => set_currentLine (Some (FreehandLine.AddPoint pos l)) c1
    | None => c1
    end in
  Refresh c2.

Definition OnLeftUp (pos : wxPoint) (c : t) : t :=
  let c1 :=
    match currentLine c with
    | Some l =>
        let l1 := FreehandLine.AddPoint pos l in
        set_currentLine None
          (push_back (ALine l1) (set_currentLine (Some l1) c))
    | None => c
    end in
  Refresh c1.

Definition OnMouseMove (ord : eval_order) (pos : wxPoint) (c : t)
  (g : RandSrc) : t * RandSrc :=
  match currentLine c with
  | Some l =>
      let '(l1, g1) :=
        if rainbowMode c then FreehandLine.UpdateRainbowColor ord l g
        else (l, g) in
      (Refresh (set_currentLine (Some (FreehandLine.AddPoint pos l1)) c), g1)
  | None => (c, g)
  end.

Definition SetColor (color : wxColor) (c : t) : t :=
  set_squareMode false
    (set_circleMode false
       (set_rainbowMode false
          (set_eraserMode false (set_currentColor color c)))).

Definition EnableRainbowMode (c : t) : t :=
  set_squareMode false (set_circleMode false (set_rainbowMode true c)).

Definition EnableEraserMode (c : t) : t :=
  set_squareMode false (set_circleMode false (set_eraserMode true c)).

Definition EnableCircleMode (c : t) : t :=
  set_squareMode false
    (set_rainbowMode false (set_eraserMode false (set_circleMode true c))).

Definition EnableSquareMode (c : t) : t :=
  set_circleMode false
    (set_rainbowMode false (set_eraserMode false (set_squareMode true c))).

End PaintCanvas.

(** ** Events *)

(** What the application shell can deliver to the canvas: the three
    pointer events, and the menu entries bound in [MyApp::OnInit]. *)
Inductive event : Type :=
| LeftDown (pos : wxPoint)
| MouseMove (pos : wxPoint)
| LeftUp (pos : wxPoint)
| PickColor (c : wxColor)
| PickRainbow
| PickEraser
| PickCircle
| PickSquare.

Definition step (ord : eval_order) (e : event)
  (st : PaintCanvas.t * RandSrc) : PaintCanvas.t * RandSrc :=
  let '(c, g) := st in
  match e with
  | LeftDown pos => (PaintCanvas.OnLeftDown pos c, g)
  | MouseMove pos => PaintCanvas.OnMouseMove ord pos c g
  | LeftUp pos => (PaintCanvas.OnLeftUp pos c, g)
  | PickColor k => (PaintCanvas.SetColor k c, g)
  | PickRainbow => (PaintCanvas.EnableRainbowMode c, g)
  | PickEraser => (PaintCanvas.EnableEraserMode c, g)
  | PickCircle => (PaintCanvas.EnableCircleMode c, g)
  | PickSquare => (PaintCanvas.EnableSquareMode c, g)
  end.

Definition run (ord : eval_order) (evs : list event)
  (st : PaintCanvas.t * RandSrc) : PaintCanvas.t * RandSrc :=
  fold_left (fun s e => step ord e s) evs st.

Definition is_menu (e : event) : bool :=
  match e with
  | PickColor _ | PickRainbow | PickEraser | PickCircle | PickSquare => true
  | _ => false
  end.

Definition is_move (e : event) : bool :=
  match e with
  | MouseMove _ => true
  | _ => false
  end.

(** One gesture: press at [p0], drag through [mid], release at [p1]. *)
Definition gesture (p0 : wxPoint) (mid : list wxPoint) (p1 : wxPoint)
  : list event :=
  LeftDown p0 :: map MouseMove mid ++ [LeftUp p1].

(** ** Vocabulary of the properties *)

(** How many of the four draw-mode flags are set. *)
Definition flags_set (c : PaintCanvas.t) : nat :=
  (Nat.b2n (PaintCanvas.rainbowMode c) + Nat.b2n (PaintCanvas.eraserMode c)
   + Nat.b2n (PaintCanvas.circleMode c) + Nat.b2n (PaintCanvas.squareMode c))%nat.

(** The draw modes exclude one another when at most one flag is set. *)
Definition exclusive (c : PaintCanvas.t) : Prop := (flags_set c <= 1)%nat.

(** The canvas is idle when nothing is in progress. *)
Definition idle (c : PaintCanvas.t) : Prop :=
  PaintCanvas.currentLine c = None.

(** No stamp mode is selected: a pointer-down starts a freehand line. *)
Definition freehand (c : PaintCanvas.t) : Prop :=
  PaintCanvas.circleMode c = false /\ PaintCanvas.squareMode c = false.

(** The positions carried by the pointer-move events of a list. *)
Definition move_positions (evs : list event) : list wxPoint :=
  flat_map (fun e => match e with MouseMove p => [p] | _ => [] end) evs.

(** Colour, mode flags and stamp size are the same in both canvases. *)
Definition same_modes (c c' : PaintCanvas.t) : Prop :=
  PaintCanvas.currentColor c' = PaintCanvas.currentColor c
  /\ PaintCanvas.rainbowMode c' = PaintCanvas.rainbowMode c
  /\ PaintCanvas.eraserMode c' = PaintCanvas.eraserMode c
  /\ PaintCanvas.circleMode c' = PaintCanvas.circleMode c
  /\ PaintCanvas.squareMode c' = PaintCanvas.squareMode c
  /\ PaintCanvas.shapeSize c' = PaintCanvas.shapeSize c.

(** No stamp is held between two handlers: [currentCircle] and
    [currentSquare] are only set inside [OnLeftDown]. *)
Definition no_stamp_held (c : PaintCanvas.t) : Prop :=
  PaintCanvas.currentCircle c = None /\ PaintCanvas.currentSquare c = None.

(** The shape a pointer-down at [pos] stamps in a stamp mode. *)
Definition stamp_at (pos : wxPoint) (c : PaintCanvas.t) : Shape :=
  if PaintCanvas.circleMode c
  then ACircle (Circle.new pos (PaintCanvas.shapeSize c)
                  (PaintCanvas.currentColor c))
  else ASquare (Square.new pos (PaintCanvas.shapeSize c)
                  (PaintCanvas.currentColor c)).

(** The line a pointer-down at [pos] starts in a freehand mode. *)
Definition line_at (pos : wxPoint) (c : PaintCanvas.t) : FreehandLine.t :=
  if PaintCanvas.eraserMode c
  then FreehandLine.mk [pos] wxWHITE false
  else FreehandLine.mk [pos] (PaintCanvas.currentColor c)
         (PaintCanvas.rainbowMode c).

(** What a gesture is expected to do to a canvas: one more committed
    shape, and nothing left in progress. *)
Definition commits_one (before after : PaintCanvas.t) : Prop :=
  length (PaintCanvas.shapes after) = S (length (PaintCanvas.shapes before))
  /\ PaintCanvas.currentLine after = None.

(** The events that leave a line in progress under the circle stamp: a
    press whose release never reaches the canvas, then the circle entry
    of the menu. *)
Definition stale_press : list event :=
  [LeftDown (mkPoint 1 1); PickCircle].

Definition zero_source : RandSrc := mkRand (fun _ => 0) 0.

(** A source that counts: 300, 301, 302, ... *)
Definition counting_source : RandSrc :=
  mkRand (fun n => 300 + Z.of_nat n) 0.

(** ** Vocabulary of the rendering *)

Definition Shape_color (s : Shape) : wxColor :=
  match s with
  | ACircle k => Circle.color k
  | ASquare q => Square.color q
  | ALine l => FreehandLine.color l
  end.

Definition is_stamp (s : Shape) : bool :=
  match s with
  | ACircle _ | ASquare _ => true
  | ALine _ => false
  end.

(** The one draw call that carries the geometry of a shape. *)
Definition geometry (s : Shape) : dc_call :=
  match s with
  | ACircle k => DrawCircle (Circle.center k) (Circle.radius k)
  | ASquare q =>
      DrawRectangle (Square.topLeft q)
        (mkSize (Square.sideLength q) (Square.sideLength q))
  | ALine l =>
      DrawLines (length (FreehandLine.points l)) (FreehandLine.points l)
  end.

(** The pen and the brush selected on a device context, if any was. *)
Record dc_tools : Type :=
  mkTools { pen : option (wxColor * Z); brush : option wxColor }.

Definition select (k : dc_call) (t : dc_tools) : dc_tools :=
  match k with
  | SetBrush c => mkTools (pen t) (Some c)
  | SetPen c w => mkTools (Some (c, w)) (brush t)
  | _ => t
  end.

(** The tools left selected after a log of calls. *)
Definition tools_after (t : dc_tools) (log : list dc_call) : dc_tools :=
  fold_left (fun t k => select k t) log t.

(** Each draw call of a log, with the tools selected when it is made. *)
Fixpoint in_force (t : dc_tools) (log : list dc_call)
  : list (dc_call * dc_tools) :=
  match log with
  | [] => []
  | k :: rest =>
      (if is_draw_call k then [(k, t)] else [])
      ++ in_force (select k t) rest
  end.

(** A draw call made with the shape's own colour selected: as the pen,
    two wide, for a line; as the brush for a stamp. *)
Definition own_colour (s : Shape) (t : dc_tools) : Prop :=
  match s with
  | ALine l => pen t = Some (FreehandLine.color l, 2)
  | _ => brush t = Some (Shape_color s)
  end.

(** What a redraw shows: the document, then the line in progress. *)
Definition displayed (c : PaintCanvas.t) : list Shape :=
  PaintCanvas.shapes c
  ++ match PaintCanvas.currentLine c with
     | Some l => [ALine l]
     | None => []
     end.

(** A committed line has both its press and its release point. *)
Definition line_complete (s : Shape) : Prop :=
  match s with
  | ALine l => (2 <= length (FreehandLine.points l))%nat
  | _ => True
  end.

Definition stamp_size (s : Shape) : option Z :=
  match s with
  | ACircle k => Some (Circle.radius k)
  | ASquare q => Some (Square.sideLength q)
  | ALine _ => None
  end.

(** The colour [UpdateRainbowColor] builds from the three values that
    the source yields [k] reads after its cursor. *)
Definition triple_at (ord : eval_order) (g : RandSrc) (k : nat) : wxColor :=
  let '(r, gr, b) :=
    assign_args ord (draws g (cursor g + k)) (draws g (cursor g + k + 1))
      (draws g (cursor g + k + 2)) in
  mkColor (r mod 256) (gr mod 256) (b mod 256).

(** ** The canvas on the heap

    [PaintCanvas] owns its shapes through raw pointers.  This second model
    of the class keeps the pointers: shapes live in cells of a heap, the
    canvas holds addresses, and a handler that would go through a pointer
    to no live object of the expected class has no result.  It is the
    model in which the destructor can be stated; it is proved below to
    agree with the model above. *)

Inductive cell : Type :=
| Live (s : Shape)
| Freed.

(** An address is an index into the list of cells.  [new] takes the next
    index; no address is reused, which is an assumption on the allocator
    only after a [delete], and the program deletes in its destructor
    only. *)
Definition heap : Type := list cell.

Definition alloc (s : Shape) (h : heap) : nat * heap :=
  (length h, h ++ [Live s]).

Definition load (h : heap) (p : nat) : option Shape :=
  match nth_error h p with
  | Some (Live s) => Some s
  | _ => None
  end.

Definition load_line (h : heap) (p : nat) : option FreehandLine.t :=
  match load h p with
  | Some (ALine l) => Some l
  | _ => None
  end.

Definition load_circle (h : heap) (p : nat) : option Circle.t :=
  match load h p with
  | Some (ACircle k) => Some k
  | _ => None
  end.

Definition load_square (h : heap) (p : nat) : option Square.t :=
  match load h p with
  | Some (ASquare q) => Some q
  | _ => None
  end.

Fixpoint poke (p : nat) (v : cell) (h : heap) : heap :=
  match h, p with
  | [], _ => []
  | _ :: rest, O => v :: rest
  | x :: rest, S p' => x :: poke p' v rest
  end.

(** A write through a pointer, defined on live objects only. *)
Definition store (p : nat) (s : Shape) (h : heap) : option heap :=
  match load h p with
  | Some _ => Some (poke p (Live s) h)
  | None => None
  end.

(** [delete p] for a non-null [p]: defined on live objects only, so a
    second [delete] of the same object has no result. *)
Definition delete (p : nat) (h : heap) : option heap :=
  match load h p with
  | Some _ => Some (poke p Freed h)
  | None => None
  end.

(** [delete p] for a [p] that may be null. *)
Definition delete_opt (o : option nat) (h : heap) : option heap :=
  match o with
  | Some p => delete p h
  | None => Some h
  end.

Fixpoint delete_all (ps : list nat) (h : heap) : option heap :=
  match ps with
  | [] => Some h
  | p :: rest =>
      match delete p h with
      | Some h1 => delete_all rest h1
      | None => None
      end
  end.

Fixpoint load_all (h : heap) (ps : list nat) : option (list Shape) :=
  match ps with
  | [] => Some []
  | p :: rest =>
      match load h p, load_all h rest with
      | Some s, Some ss => Some (s :: ss)
      | _, _ => None
      end
  end.

Definition load_opt {A : Type} (ld : nat -> option A) (o : option nat)
  : option (option A) :=
  match o with
  | Some p => option_map Some (ld p)
  | None => Some None
  end.

(** The number of objects allocated and not deleted. *)
Definition live_count (h : heap) : nat :=
  length (filter (fun x => match x with Live _ => true | Freed => false end)
            h).

Definition bind {A B : Type} (o : option A) (f : A -> option B) : option B :=
  match o with
  | Some a => f a
  | None => None
  end.

Notation "x <- e ;; k" := (bind e (fun x => k))
  (at level 61, e at next level, right associativity).

Module HeapCanvas.

Record t : Type := mk {
  shapes : list nat;
  currentLine : option nat;
  currentCircle : option nat;
  currentSquare : option nat;
  currentColor : wxColor;
  rainbowMode : bool;
  eraserMode : bool;
  circleMode : bool;
  squareMode : bool;
  shapeSize : Z;
  refreshes : nat
}.

Definition set_shapes (v : list nat) (c : t) : t :=
  mk v (currentLine c) (currentCircle c) (currentSquare c) (currentColor c)
     (rainbowMode c) (eraserMode c) (circleMode c) (squareMode c)
     (shapeSize c) (refreshes c).

Definition set_currentLine (v : option nat) (c : t) : t :=
  mk (shapes c) v (currentCircle c) (currentSquare c) (currentColor c)
     (rainbowMode c) (eraserMode c) (circleMode c) (squareMode c)
     (shapeSize c) (refreshes c).

Definition set_currentCircle (v : option nat) (c : t) : t :=
  mk (shapes c) (currentLine c) v (currentSquare c) (currentColor c)
     (rainbowMode c) (eraserMode c) (circleMode c) (squareMode c)
     (shapeSize c) (refreshes c).

Definition set_currentSquare (v : option nat) (c : t) : t :=
  mk (shapes c) (currentLine c) (currentCircle c) v (currentColor c)
     (rainbowMode c) (eraserMode c) (circleMode c) (squareMode c)
     (shapeSize c) (refreshes c).

Definition set_currentColor (v : wxColor) (c : t) : t :=
  mk (shapes c) (currentLine c) (currentCircle c) (currentSquare c) v
     (rainbowMode c) (eraserMode c) (circleMode c) (squareMode c)
     (shapeSize c) (refreshes c).

Definition set_rainbowMode (v : bool) (c : t) : t :=
  mk (shapes c) (currentLine c) (currentCircle c) (currentSquare c)
     (currentColor c) v (eraserMode c) (circleMode c) (squareMode c)
     (shapeSize c) (refreshes c).

Definition set_eraserMode (v : bool) (c : t) : t :=
  mk (shapes c) (currentLine c) (currentCircle c) (currentSquare c)
     (currentColor c) (rainbowMode c) v (circleMode c) (squareMode c)
     (shapeSize c) (refreshes c).

Definition set_circleMode (v : bool) (c : t) : t :=
  mk (shapes c) (currentLine c) (currentCircle c) (currentSquare c)
     (currentColor c) (rainbowMode c) (eraserMode c) v (squareMode c)
     (shapeSize c) (refreshes c).

Definition set_squareMode (v : bool) (c : t) : t :=
  mk (shapes c) (currentLine c) (currentCircle c) (currentSquare c)
     (currentColor c) (rainbowMode c) (eraserMode c) (circleMode c) v
     (shapeSize c) (refreshes c).

Definition Refresh (c : t) : t :=
  mk (shapes c) (currentLine c) (currentCircle c) (currentSquare c)
     (currentColor c) (rainbowMode c) (eraserMode c) (circleMode c)
     (squareMode c) (shapeSize c) (S (refreshes c)).

Definition push_back (p : nat) (c : t) : t :=
  set_shapes (shapes c ++ [p]) c.

Definition new : t :=
  set_currentColor wxBLACK
    (mk [] None None None (mkColor 0 0 0) false false false false 50 0).

(** Every pointer the canvas holds, in the order the destructor deletes
    them. *)
Definition owned (c : t) : list nat :=
  shapes c
  ++ match currentLine c with Some p => [p] | None => [] end
  ++ match currentCircle c with Some p => [p] | None => [] end
  ++ match currentSquare c with Some p => [p] | None => [] end.

Fixpoint draw_all (h : heap) (ps : list nat) : option (list dc_call) :=
  match ps with
  | [] => Some []
  | p :: rest =>
      s <- load h p ;;
      log <- draw_all h rest ;;
      Some (Shape_Draw s ++ log)
  end.

Definition draw_opt {A : Type} (ld : nat -> option A)
  (draw : A -> list dc_call) (o : option nat) : option (list dc_call) :=
  match o with
  | Some p => s <- ld p ;; Some (draw s)
  | None => Some []
  end.

Definition OnPaint (c : t) (h : heap) : option (list dc_call) :=
  log0 <- draw_all h (shapes c) ;;
  log1 <- draw_opt (load_line h) FreehandLine.Draw (currentLine c) ;;
  log2 <- draw_opt (load_circle h) Circle.Draw (currentCircle c) ;;
  log3 <- draw_opt (load_square h) Square.Draw (currentSquare c) ;;
  Some (log0 ++ log1 ++ log2 ++ log3).

Definition OnLeftDown (pos : wxPoint) (c : t) (h : heap)
  : option (t * heap) :=
  let '(c1, h1) :=
    if circleMode c then
      let '(p, h1) :=
        alloc (ACircle (Circle.new pos (shapeSize c) (currentColor c))) h in
      (Refresh
         (set_currentCircle None
            (push_back p (set_currentCircle (Some p) c))), h1)
    else if squareMode c then
      let '(p, h1) :=
        alloc (ASquare (Square.new pos (shapeSize c) (currentColor c))) h in
      (Refresh
         (set_currentSquare None
            (push_back p (set_currentSquare (Some p) c))), h1)
    else if eraserMode c then
      let '(p, h1) := alloc (ALine (FreehandLine.new wxWHITE false)) h in
      (set_currentLine (Some p) c, h1)
    else
      let '(p, h1) :=
        alloc (ALine (FreehandLine.new (currentColor c) (rainbowMode c)))
          h in
      (set_currentLine (Some p) c, h1) in
  match currentLine c1 with
  | Some p =>
      l <- load_line h1 p ;;
      h2 <- store p (ALine (FreehandLine.AddPoint pos l)) h1 ;;
      Some (Refresh c1, h2)
  | None => Some (Refresh c1, h1)
  end.

Definition OnLeftUp (pos : wxPoint) (c : t) (h : heap) : option (t * heap) :=
  match currentLine c with
  | Some p =>
      l <- load_line h p ;;
      h1 <- store p (ALine (FreehandLine.AddPoint pos l)) h ;;
      Some (Refresh (set_currentLine None (push_back p c)), h1)
  | None => Some (Refresh c, h)
  end.

Definition OnMouseMove (ord : eval_order) (pos : wxPoint) (c : t)
  (h : heap) (g : RandSrc) : option (t * heap * RandSrc) :=
  match currentLine c with
  | Some p =>
      hg <- (if rainbowMode c then
               l <- load_line h p ;;
               h1 <- store p
                       (ALine (fst (FreehandLine.UpdateRainbowColor ord l g)))
                       h ;;
               Some (h1, snd (FreehandLine.UpdateRainbowColor ord l g))
             else Some (h, g)) ;;
      l <- load_line (fst hg) p ;;
      h2 <- store p (ALine (FreehandLine.AddPoint pos l)) (fst hg) ;;
      Some (Refresh c, h2, snd hg)
  | None => Some (c, h, g)
  end.

Definition SetColor (color : wxColor) (c : t) : t :=
  set_squareMode false
    (set_circleMode false
       (set_rainbowMode false
          (set_eraserMode false (set_currentColor color c)))).

Definition EnableRainbowMode (c : t) : t :=
  set_squareMode false (set_circleMode false (set_rainbowMode true c)).

Definition EnableEraserMode (c : t) : t :=
  set_squareMode false (set_circleMode false (set_eraserMode true c)).

Definition EnableCircleMode (c : t) : t :=
  set_squareMode false
    (set_rainbowMode false (set_eraserMode false (set_circleMode true c))).

Definition EnableSquareMode (c : t) : t :=
  set_circleMode false
    (set_rainbowMode false (set_eraserMode false (set_squareMode true c))).

(** The destructor: every pointer of [shapes] in order, then
    [currentLine], [currentCircle] and [currentSquare]. *)
Definition Destroy (c : t) (h : heap) : option heap :=
  h0 <- delete_all (shapes c) h ;;
  h1 <- delete_opt (currentLine c) h0 ;;
  h2 <- delete_opt (currentCircle c) h1 ;;
  delete_opt (currentSquare c) h2.

Definition step (ord : eval_order) (e : event) (st : t * heap * RandSrc)
  : option (t * heap * RandSrc) :=
  let '(c, h, g) := st in
  match e with
  | LeftDown pos => s <- OnLeftDown pos c h ;; Some (s, g)
  | MouseMove pos => OnMouseMove ord pos c h g
  | LeftUp pos => s <- OnLeftUp pos c h ;; Some (s, g)
  | PickColor k => Some (SetColor k c, h, g)
  | PickRainbow => Some (EnableRainbowMode c, h, g)
  | PickEraser => Some (EnableEraserMode c, h, g)
  | PickCircle => Some (EnableCircleMode c, h, g)
  | PickSquare => Some (EnableSquareMode c, h, g)
  end.

Fixpoint run (ord : eval_order) (evs : list event)
  (st : t * heap * RandSrc) : option (t * heap * RandSrc) :=
  match evs with
  | [] => Some st
  | e :: rest => st1 <- step ord e st ;; run ord rest st1
  end.

(** The canvas of the first model that a heap canvas stands for: every
    pointer replaced by the object it points to. *)
Definition view (c : t) (h : heap) : option PaintCanvas.t :=
  ss <- load_all h (shapes c) ;;
  l <- load_opt (load_line h) (currentLine c) ;;
  k <- load_opt (load_circle h) (currentCircle c) ;;
  q <- load_opt (load_square h) (currentSquare c) ;;
  Some (PaintCanvas.mk ss l k q (currentColor c) (rainbowMode c)
          (eraserMode c) (circleMode c) (squareMode c) (shapeSize c)
          (refreshes c)).

(** What holds between two handlers: no pointer is held twice, and no
    stamp is held. *)
Definition sound (c : t) : Prop :=
  NoDup (owned c) /\ currentCircle c = None /\ currentSquare c = None.

End HeapCanvas.

(** A heap canvas in its between-handlers state that stands for [a]. *)
Definition agrees (c : HeapCanvas.t) (h : heap) (a : PaintCanvas.t) : Prop :=
  HeapCanvas.sound c /\ HeapCanvas.view c h = Some a.

(** A pointer-down that overwrites [currentLine] while it still points to
    a line: the old line is reachable from nowhere afterwards. *)
Definition orphans_line (e : event) (c : PaintCanvas.t) : bool :=
  match e, PaintCanvas.currentLine c with
  | LeftDown _, Some _ =>
      negb (PaintCanvas.circleMode c) && negb (PaintCanvas.squareMode c)
  | _, _ => false
  end.

(** How many lines a run of events orphans. *)
Fixpoint orphaned (ord : eval_order) (evs : list event)
  (st : PaintCanvas.t * RandSrc) : nat :=
  match evs with
  | [] => 0%nat
  | e :: rest =>
      (Nat.b2n (orphans_line e (fst st))
       + orphaned ord rest (step ord e st))%nat
  end.

(** No pointer-down arrives while the button is down: every press is
    released before the next one.  [down] says whether the button is down
    before the events. *)
Fixpoint presses_released (down : bool) (evs : list event) : bool :=
  match evs with
  | [] => true
  | LeftDown _ :: rest => negb down && presses_released true rest
  | LeftUp _ :: rest => presses_released false rest
  | _ :: rest => presses_released down rest
  end.

(** A colour whose channels fit the [unsigned char] members of
    [wxColor]. *)
Definition valid_color (k : wxColor) : Prop :=
  0 <= red k < 256 /\ 0 <= green k < 256 /\ 0 <= blue k < 256.

Definition carries_valid_color (e : event) : Prop :=
  match e with
  | PickColor k => valid_color k
  | _ => True
  end.

(** ** The application shell *)

(** The menu IDs of [Source.cpp], relative to the toolkit's
    [wxID_HIGHEST], which is taken as a parameter. *)
Definition ID_COLOR_RED (wxID_HIGHEST : Z) : Z := wxID_HIGHEST + 1.
Definition ID_COLOR_GREEN (wxID_HIGHEST : Z) : Z := wxID_HIGHEST + 2.
Definition ID_COLOR_BLUE (wxID_HIGHEST : Z) : Z := wxID_HIGHEST + 3.
Definition ID_MODE_RAINBOW (wxID_HIGHEST : Z) : Z := wxID_HIGHEST + 4.
Definition ID_MODE_ERASER (wxID_HIGHEST : Z) : Z := wxID_HIGHEST + 5.
Definition ID_MODE_CIRCLE (wxID_HIGHEST : Z) : Z := wxID_HIGHEST + 6.
Definition ID_MODE_SQUARE (wxID_HIGHEST : Z) : Z := wxID_HIGHEST + 7.

(** The menu bar built by [MyApp::OnInit]: each menu with its title and
    its entries, as appended. *)
Definition menu_bar (hi : Z)
  : list (String.string * list (Z * String.string)) :=
  [("Colors"%string,
    [(ID_COLOR_RED hi, "Red"%string);
     (ID_COLOR_GREEN hi, "Green"%string);
     (ID_COLOR_BLUE hi, "Blue"%string)]);
   ("Fun Modes"%string,
    [(ID_MODE_RAINBOW hi, "Rainbow Brush"%string);
     (ID_MODE_ERASER hi, "Eraser"%string);
     (ID_MODE_CIRCLE hi, "Draw Circle"%string);
     (ID_MODE_SQUARE hi, "Draw Square"%string)])].

Definition menu_entries (hi : Z) : list (Z * String.string) :=
  flat_map snd (menu_bar hi).

(** The [frame->Bind(wxEVT_MENU, ..., id)] calls of [MyApp::OnInit], in
    order; each handler is named by the event that [step] maps to the
    canvas method the handler calls. *)
Definition menu_handlers (hi : Z) : list (Z * event) :=
  [(ID_COLOR_RED hi, PickColor wxRED);
   (ID_COLOR_GREEN hi, PickColor wxGREEN);
   (ID_COLOR_BLUE hi, PickColor wxBLUE);
   (ID_MODE_RAINBOW hi, PickRainbow);
   (ID_MODE_ERASER hi, PickEraser);
   (ID_MODE_CIRCLE hi, PickCircle);
   (ID_MODE_SQUARE hi, PickSquare)].

(** The handlers bound to the ID of a menu event. *)
Definition on_menu (hi id : Z) : list event :=
  map snd (filter (fun b => fst b =? id) (menu_handlers hi)).

(** What a redraw shows of the line in progress: the line, once it has
    the two points a polyline needs. *)
Definition shown_line (o : option FreehandLine.t) : list Shape :=
  match o with
  | Some l =>
      if (2 <=? length (FreehandLine.points l))%nat then [ALine l] else []
  | None => []
  end.

(** A pointer-move that makes [UpdateRainbowColor] call [rand()]: the
    canvas is in rainbow mode and the line in progress is a rainbow
    line. *)
Definition reads_rand (e : event) (c : PaintCanvas.t) : bool :=
  match e, PaintCanvas.currentLine c with
  | MouseMove _, Some l =>
      PaintCanvas.rainbowMode c && FreehandLine.rainbowMode l
  | _, _ => false
  end.

(** How many events of a run are such moves. *)
Fixpoint rand_reads (ord : eval_order) (evs : list event)
  (st : PaintCanvas.t * RandSrc) : nat :=
  match evs with
  | [] => 0%nat
  | e :: rest =>
      (Nat.b2n (reads_rand e (fst st)) + rand_reads ord rest (step ord e st))%nat
  end.

(** ** Basic facts *)

Import PaintCanvas.

Lemma to_uchar_rem (v : Z) : to_uchar (Z.rem v 256) = v mod 256.
Proof.
  unfold to_uchar.
  rewrite Z.rem_eq by lia.
  replace (v - 256 * Z.quot v 256) with (v + (- Z.quot v 256) * 256)
    by ring.
  apply Z.mod_add. lia.
Qed.

Lemma assign_args_map (f : Z -> Z) (ord : eval_order) (v0 v1 v2 : Z) :
  assign_args ord (f v0) (f v1) (f v2)
  = let '(r, g, b) := assign_args ord v0 v1 v2 in (f r, f g, f b).
Proof. destruct ord; reflexivity. Qed.

Lemma segments_length (pts : list wxPoint) :
  length (segments pts) = (length pts - 1)%nat.
Proof.
  induction pts as [|p [|q rest] IH]; simpl in *; try reflexivity.
  rewrite IH. lia.
Qed.

Lemma segments_connected (pts : list wxPoint) : connected (segments pts).
Proof.
  induction pts as [|p [|q [|r rest]] IH]; simpl in *; auto.
Qed.

Lemma segments_starts (pts : list wxPoint) :
  map fst (segments pts) = removelast pts.
Proof.
  induction pts as [|p [|q rest] IH]; simpl in *; try reflexivity.
  now rewrite IH.
Qed.

Lemma segments_ends (pts : list wxPoint) :
  map snd (segments pts) = tl pts.
Proof.
  induction pts as [|p [|q rest] IH]; simpl in *; try reflexivity.
  now rewrite IH.
Qed.

(** ** Mode setting *)

Lemma SetColor_exclusive (k : wxColor) (c : PaintCanvas.t) :
  exclusive (SetColor k c)
  /\ flags_set (SetColor k c) = 0%nat /\ currentColor (SetColor k c) = k.
Proof.
  split; [unfold exclusive, flags_set; simpl; lia | split; reflexivity].
Qed.

Lemma EnableCircleMode_exclusive (c : PaintCanvas.t) :
  exclusive (EnableCircleMode c)
  /\ circleMode (EnableCircleMode c) = true.
Proof.
  split; [unfold exclusive, flags_set; simpl; lia | reflexivity].
Qed.

Lemma EnableSquareMode_exclusive (c : PaintCanvas.t) :
  exclusive (EnableSquareMode c)
  /\ squareMode (EnableSquareMode c) = true.
Proof.
  split; [unfold exclusive, flags_set; simpl; lia | reflexivity].
Qed.

(** The two brush modes clear the stamp flags but not each other: the
    result is exclusive only if the other brush flag was already clear. *)
Lemma EnableRainbowMode_exclusive_iff (c : PaintCanvas.t) :
  exclusive (EnableRainbowMode c) <-> eraserMode c = false.
Proof.
  unfold exclusive, flags_set. simpl.
  destruct (eraserMode c); simpl; split; intros H;
    try reflexivity; try discriminate; lia.
Qed.

Lemma EnableEraserMode_exclusive_iff (c : PaintCanvas.t) :
  exclusive (EnableEraserMode c) <-> rainbowMode c = false.
Proof.
  unfold exclusive, flags_set. simpl.
  destruct (rainbowMode c); simpl; split; intros H;
    try reflexivity; try discriminate; lia.
Qed.

Lemma EnableRainbowMode_flags (c : PaintCanvas.t) :
  rainbowMode (EnableRainbowMode c) = true
  /\ circleMode (EnableRainbowMode c) = false
  /\ squareMode (EnableRainbowMode c) = false
  /\ eraserMode (EnableRainbowMode c) = eraserMode c.
Proof. repeat split. Qed.

Lemma EnableEraserMode_flags (c : PaintCanvas.t) :
  eraserMode (EnableEraserMode c) = true
  /\ circleMode (EnableEraserMode c) = false
  /\ squareMode (EnableEraserMode c) = false
  /\ rainbowMode (EnableEraserMode c) = rainbowMode c.
Proof. repeat split. Qed.

(** C1.  The claim is that every mode-setting operation leaves at most the
    selected mode's flag set, and in particular that the rainbow flag is
    false after [EnableEraserMode].  Evaluated on the code: picking the
    rainbow brush and then the eraser on a new canvas leaves both the
    rainbow and the eraser flag set; picking them in the other order does
    the same, and the next pointer-down then still starts a white,
    non-rainbow eraser line although the rainbow brush was picked last. *)
Theorem eraser_and_rainbow_stay_set_together :
  let c1 := EnableEraserMode (EnableRainbowMode new) in
  let c2 := EnableRainbowMode (EnableEraserMode new) in
  rainbowMode c1 = true /\ eraserMode c1 = true /\ ~ exclusive c1
  /\ rainbowMode c2 = true /\ eraserMode c2 = true /\ ~ exclusive c2
  /\ currentLine (OnLeftDown (mkPoint 3 4) c2)
     = Some (FreehandLine.mk [mkPoint 3 4] wxWHITE false).
Proof.
  cbv zeta. unfold exclusive.
  repeat split; try (intros H; vm_compute in H; lia).
Qed.

(** ** Construction *)

(** C10.  A new canvas draws freehand in black: the four mode flags are
    false, the stamp size is 50, the document and the in-progress slot are
    empty; the first pointer-down starts a black, non-rainbow line holding
    the pointer position and commits nothing. *)
Theorem new_canvas_draws_black_freehand (pos : wxPoint) :
  currentColor new = wxBLACK
  /\ wxBLACK = mkColor 0 0 0
  /\ rainbowMode new = false /\ eraserMode new = false
  /\ circleMode new = false /\ squareMode new = false
  /\ shapeSize new = 50
  /\ shapes new = []
  /\ currentLine new = None
  /\ currentCircle new = None /\ currentSquare new = None
  /\ currentLine (OnLeftDown pos new)
     = Some (FreehandLine.mk [pos] wxBLACK false)
  /\ shapes (OnLeftDown pos new) = [].
Proof. repeat split. Qed.

(** ** Freehand lines *)

Lemma Draw_short (l : FreehandLine.t) :
  (length (FreehandLine.points l) <= 1)%nat ->
  FreehandLine.Draw l = [SetPen (FreehandLine.color l) 2].
Proof.
  intros H. unfold FreehandLine.Draw.
  destruct (Nat.ltb_spec 1 (length (FreehandLine.points l))) as [Hlt|_].
  - lia.
  - reflexivity.
Qed.

Lemma Draw_long (l : FreehandLine.t) :
  (2 <= length (FreehandLine.points l))%nat ->
  FreehandLine.Draw l
  = [SetPen (FreehandLine.color l) 2;
     DrawLines (length (FreehandLine.points l)) (FreehandLine.points l)].
Proof.
  intros H. unfold FreehandLine.Draw.
  destruct (Nat.ltb_spec 1 (length (FreehandLine.points l))) as [_|Hge].
  - reflexivity.
  - lia.
Qed.

(** C3.  [Draw] on a line of N >= 2 points selects the pen and issues one
    [DrawLines] over all the points: N-1 segments, connected, starting at
    every point but the last and ending at every point but the first, in
    point order.  On a line of 0 or 1 points it selects the pen and issues
    no draw call.  [AddPoint] puts its argument after the existing points
    and changes nothing else. *)
Theorem freehand_draw_and_append (l : FreehandLine.t) :
  let pts := FreehandLine.points l in
  ((2 <= length pts)%nat ->
     draw_calls (FreehandLine.Draw l) = [DrawLines (length pts) pts]
     /\ flat_map segments_of (FreehandLine.Draw l) = segments pts
     /\ length (segments pts) = (length pts - 1)%nat
     /\ connected (segments pts)
     /\ map fst (segments pts) = removelast pts
     /\ map snd (segments pts) = tl pts)
  /\ ((length pts <= 1)%nat ->
        FreehandLine.Draw l = [SetPen (FreehandLine.color l) 2]
        /\ draw_calls (FreehandLine.Draw l) = []
        /\ flat_map segments_of (FreehandLine.Draw l) = [])
  /\ (forall p,
        FreehandLine.points (FreehandLine.AddPoint p l) = pts ++ [p]
        /\ firstn (length pts)
             (FreehandLine.points (FreehandLine.AddPoint p l)) = pts
        /\ FreehandLine.color (FreehandLine.AddPoint p l)
           = FreehandLine.color l
        /\ FreehandLine.rainbowMode (FreehandLine.AddPoint p l)
           = FreehandLine.rainbowMode l).
Proof.
  cbv zeta. split; [|split].
  - intros H. rewrite (Draw_long l H). simpl.
    rewrite firstn_all, app_nil_r.
    repeat split.
    + apply segments_length.
    + apply segments_connected.
    + apply segments_starts.
    + apply segments_ends.
  - intros H. rewrite (Draw_short l H). repeat split.
  - intros p. simpl. repeat split.
    rewrite firstn_app, firstn_all, Nat.sub_diag. simpl.
    apply app_nil_r.
Qed.

Lemma freehand_draw_and_append_witness :
  let l := FreehandLine.mk [mkPoint 0 0; mkPoint 1 2; mkPoint 5 5] wxRED false in
  draw_calls (FreehandLine.Draw l)
  = [DrawLines 3 [mkPoint 0 0; mkPoint 1 2; mkPoint 5 5]]
  /\ draw_calls (FreehandLine.Draw (FreehandLine.mk [mkPoint 7 7] wxRED false))
     = [].
Proof.
  split.
  - apply (freehand_draw_and_append
             (FreehandLine.mk [mkPoint 0 0; mkPoint 1 2; mkPoint 5 5]
                wxRED false)).
    simpl. lia.
  - apply (freehand_draw_and_append
             (FreehandLine.mk [mkPoint 7 7] wxRED false)).
    simpl. lia.
Defined.

(** ** The rainbow colour *)

Lemma UpdateRainbowColor_off (ord : eval_order) (l : FreehandLine.t)
  (g : RandSrc) :
  FreehandLine.rainbowMode l = false ->
  FreehandLine.UpdateRainbowColor ord l g = (l, g).
Proof. intros H. unfold FreehandLine.UpdateRainbowColor. now rewrite H. Qed.

Lemma UpdateRainbowColor_frame (ord : eval_order) (l : FreehandLine.t)
  (g : RandSrc) :
  let l' := fst (FreehandLine.UpdateRainbowColor ord l g) in
  FreehandLine.points l' = FreehandLine.points l
  /\ FreehandLine.rainbowMode l' = FreehandLine.rainbowMode l.
Proof.
  unfold FreehandLine.UpdateRainbowColor.
  destruct (FreehandLine.rainbowMode l) eqn:E; simpl.
  - destruct (assign_args ord _ _ _) as [[r gr] b]. simpl. auto.
  - auto.
Qed.

(** C5.  [UpdateRainbowColor] on a line whose rainbow flag is set takes
    the next three values of the randomness source and stores, in each
    channel, one of them reduced modulo 256 (which of the three goes to
    which channel is the compiler's choice of argument order); points and
    flag are kept.  On a line whose flag is not set it returns the line
    and the source as they were.  Hence the colour is replaced by a drawn
    triple exactly when the flag is set, and the source is read exactly
    then. *)
Theorem update_rainbow_color_iff_flag (ord : eval_order)
  (l : FreehandLine.t) (g : RandSrc) :
  let l' := fst (FreehandLine.UpdateRainbowColor ord l g) in
  let g' := snd (FreehandLine.UpdateRainbowColor ord l g) in
  let v0 := draws g (cursor g) in
  let v1 := draws g (S (cursor g)) in
  let v2 := draws g (S (S (cursor g))) in
  (FreehandLine.rainbowMode l = true ->
     (let '(r, gr, b) := assign_args ord v0 v1 v2 in
      FreehandLine.color l' = mkColor (r mod 256) (gr mod 256) (b mod 256))
     /\ 0 <= red (FreehandLine.color l') < 256
     /\ 0 <= green (FreehandLine.color l') < 256
     /\ 0 <= blue (FreehandLine.color l') < 256
     /\ FreehandLine.points l' = FreehandLine.points l
     /\ FreehandLine.rainbowMode l' = true
     /\ g' = mkRand (draws g) (3 + cursor g))
  /\ (FreehandLine.rainbowMode l = false -> l' = l /\ g' = g)
  /\ (FreehandLine.rainbowMode l = true <->
      g' <> g).
Proof.
  cbv zeta. unfold FreehandLine.UpdateRainbowColor, rand.
  destruct (FreehandLine.rainbowMode l) eqn:E; simpl.
  - split; [intros _|split; [discriminate|]].
    + rewrite (assign_args_map (fun v => Z.rem v 256)).
      destruct (assign_args ord _ _ _) as [[r gr] b]. simpl.
      unfold wxColor_rgb. rewrite !to_uchar_rem.
      repeat split; try (apply Z.mod_pos_bound; lia).
    + split; [intros _|reflexivity].
      destruct (assign_args ord _ _ _) as [[r gr] b]. simpl.
      intros H. apply (f_equal cursor) in H. simpl in H. lia.
  - split; [discriminate|split; [auto|]].
    split; [discriminate|]. intros H. now contradiction H.
Qed.

Lemma update_rainbow_color_iff_flag_witness :
  FreehandLine.color
    (fst (FreehandLine.UpdateRainbowColor Order_BGR
            (FreehandLine.mk [] wxBLACK true) counting_source))
  = mkColor 46 45 44
  /\ fst (FreehandLine.UpdateRainbowColor Order_BGR
            (FreehandLine.mk [] wxBLACK false) counting_source)
     = FreehandLine.mk [] wxBLACK false.
Proof.
  split.
  - apply (update_rainbow_color_iff_flag Order_BGR
             (FreehandLine.mk [] wxBLACK true) counting_source).
    reflexivity.
  - apply (update_rainbow_color_iff_flag Order_BGR
             (FreehandLine.mk [] wxBLACK false) counting_source).
    reflexivity.
Defined.

(** ** Pointer-down *)

Lemma OnLeftDown_stamp (pos : wxPoint) (c : PaintCanvas.t) :
  circleMode c = true \/ squareMode c = true ->
  OnLeftDown pos c
  = Refresh
      (match currentLine c with
       | Some l => set_currentLine (Some (FreehandLine.AddPoint pos l))
       | None => fun x => x
       end
         (Refresh
            (if circleMode c
             then set_currentCircle None
                    (push_back (stamp_at pos c) (set_currentCircle
                       (Some (Circle.new pos (shapeSize c) (currentColor c)))
                       c))
             else set_currentSquare None
                    (push_back (stamp_at pos c) (set_currentSquare
                       (Some (Square.new pos (shapeSize c) (currentColor c)))
                       c))))).
Proof.
  intros H. unfold OnLeftDown, stamp_at.
  destruct (circleMode c) eqn:Ec.
  - simpl. now destruct (currentLine c).
  - destruct H as [H|H]; [discriminate|]. rewrite H. simpl.
    now destruct (currentLine c).
Qed.

Lemma OnLeftDown_freehand (pos : wxPoint) (c : PaintCanvas.t) :
  freehand c ->
  OnLeftDown pos c = Refresh (set_currentLine (Some (line_at pos c)) c).
Proof.
  intros [Hc Hs]. unfold OnLeftDown, line_at. rewrite Hc, Hs.
  now destruct (eraserMode c).
Qed.

Lemma OnLeftDown_stamp_frame (pos : wxPoint) (c : PaintCanvas.t) :
  circleMode c = true \/ squareMode c = true ->
  shapes (OnLeftDown pos c) = shapes c ++ [stamp_at pos c]
  /\ (currentLine c = None -> currentLine (OnLeftDown pos c) = None).
Proof.
  intros H. rewrite (OnLeftDown_stamp pos c H). split.
  - destruct (circleMode c), (currentLine c); reflexivity.
  - intros Hn. rewrite Hn. destruct (circleMode c); simpl; exact Hn.
Qed.

(** C4, as stated, at a concrete input: a press whose release never
    reached the canvas, then the circle stamp picked.  The next
    pointer-down stamps a circle and does not leave the in-progress slot
    empty: the line of the first press is still there, with the new
    pointer position appended. *)
Lemma stamp_press_on_stale_line_keeps_the_line :
  let c := fst (run Order_RGB stale_press (new, zero_source)) in
  circleMode c = true
  /\ currentLine (OnLeftDown (mkPoint 5 5) c)
     = Some (FreehandLine.mk [mkPoint 1 1; mkPoint 5 5] wxBLACK false)
  /\ currentLine (OnLeftDown (mkPoint 5 5) c) <> None.
Proof.
  cbv zeta. split; [reflexivity|split; [reflexivity|]].
  vm_compute. discriminate.
Qed.

(** C4, amended.  A pointer-down in a stamp mode appends exactly one
    shape to the end of the document: a circle of radius [shapeSize]
    centred on the pointer in circle mode, otherwise a square of side
    [shapeSize] with its corner on the pointer, in the current colour.
    The in-progress slot is empty afterwards exactly when it was empty
    before: from Idle the canvas remains Idle.  No stamp stays held,
    colour and modes are kept.  The stamped circle renders as one brush
    selection and exactly one [DrawCircle] with the pointer position and
    the stamp size. *)
Theorem stamp_on_pointer_down (pos : wxPoint) (c : PaintCanvas.t) :
  circleMode c = true \/ squareMode c = true ->
  let c' := OnLeftDown pos c in
  shapes c' = shapes c ++ [stamp_at pos c]
  /\ (circleMode c = true ->
        stamp_at pos c
        = ACircle (Circle.new pos (shapeSize c) (currentColor c))
        /\ Shape_Draw (stamp_at pos c)
           = [SetBrush (currentColor c); DrawCircle pos (shapeSize c)]
        /\ draw_calls (Shape_Draw (stamp_at pos c))
           = [DrawCircle pos (shapeSize c)])
  /\ (circleMode c = false ->
        stamp_at pos c
        = ASquare (Square.new pos (shapeSize c) (currentColor c))
        /\ draw_calls (Shape_Draw (stamp_at pos c))
           = [DrawRectangle pos (mkSize (shapeSize c) (shapeSize c))])
  /\ (currentLine c' = None <-> currentLine c = None)
  /\ (no_stamp_held c -> no_stamp_held c')
  /\ same_modes c c'.
Proof.
  intros H. cbv zeta. rewrite (OnLeftDown_stamp pos c H).
  unfold stamp_at, same_modes, no_stamp_held.
  destruct (circleMode c) eqn:Ec.
  - destruct (currentLine c) eqn:El; simpl; rewrite ?Ec, ?El;
      repeat split; try discriminate; try tauto.
  - destruct (currentLine c) eqn:El; simpl; rewrite ?Ec, ?El;
      repeat split; try discriminate; try tauto.
Qed.

Lemma stamp_on_pointer_down_witness :
  let c := EnableCircleMode (SetColor wxRED new) in
  shapes (OnLeftDown (mkPoint 10 20) c)
  = [ACircle (Circle.new (mkPoint 10 20) 50 wxRED)]
  /\ currentLine (OnLeftDown (mkPoint 10 20) c) = None.
Proof.
  pose proof (stamp_on_pointer_down (mkPoint 10 20)
                (EnableCircleMode (SetColor wxRED new))
                (or_introl eq_refl)) as H.
  cbv zeta in H. destruct H as (Hs & _ & _ & Hl & _).
  split.
  - exact Hs.
  - apply Hl. reflexivity.
Defined.

(** C8.  A pointer-down with no stamp mode selected puts a new line in the
    in-progress slot: white and non-rainbow in eraser mode, otherwise in
    the current colour and carrying the canvas's rainbow flag; the line
    holds the pointer position as its only point.  The document, the colour
    and the modes are kept, and one redraw is requested. *)
Theorem freehand_pointer_down_starts_line (pos : wxPoint)
  (c : PaintCanvas.t) :
  circleMode c = false -> squareMode c = false ->
  let c' := OnLeftDown pos c in
  currentLine c' = Some (line_at pos c)
  /\ FreehandLine.points (line_at pos c) = [pos]
  /\ FreehandLine.color (line_at pos c)
     = (if eraserMode c then wxWHITE else currentColor c)
  /\ FreehandLine.rainbowMode (line_at pos c)
     = (if eraserMode c then false else rainbowMode c)
  /\ wxWHITE = mkColor 255 255 255
  /\ shapes c' = shapes c
  /\ same_modes c c'
  /\ refreshes c' = S (refreshes c).
Proof.
  intros Hc Hs. cbv zeta.
  rewrite (OnLeftDown_freehand pos c (conj Hc Hs)).
  unfold line_at, same_modes. simpl.
  destruct (eraserMode c); repeat split.
Qed.

Lemma freehand_pointer_down_starts_line_witness :
  currentLine (OnLeftDown (mkPoint 2 3) (EnableEraserMode new))
  = Some (FreehandLine.mk [mkPoint 2 3] (mkColor 255 255 255) false).
Proof.
  apply (freehand_pointer_down_starts_line (mkPoint 2 3)
           (EnableEraserMode new)); reflexivity.
Defined.

(** ** Pointer-move *)

Lemma OnMouseMove_idle (ord : eval_order) (pos : wxPoint)
  (c : PaintCanvas.t) (g : RandSrc) :
  currentLine c = None -> OnMouseMove ord pos c g = (c, g).
Proof. intros H. unfold OnMouseMove. now rewrite H. Qed.

Lemma OnMouseMove_drawing (ord : eval_order) (pos : wxPoint)
  (c : PaintCanvas.t) (g : RandSrc) (l : FreehandLine.t) :
  currentLine c = Some l ->
  let r := if rainbowMode c then FreehandLine.UpdateRainbowColor ord l g
           else (l, g) in
  OnMouseMove ord pos c g
  = (Refresh (set_currentLine (Some (FreehandLine.AddPoint pos (fst r))) c),
     snd r).
Proof.
  intros H. cbv zeta. unfold OnMouseMove. rewrite H.
  destruct (rainbowMode c).
  - now destruct (FreehandLine.UpdateRainbowColor ord l g).
  - reflexivity.
Qed.

(** C7.  A pointer-move with nothing in progress returns the canvas and
    the randomness source exactly as they were (document, slot, modes,
    colour; no redraw is requested either).  With a line in progress and
    the canvas in rainbow mode, [UpdateRainbowColor] runs on the line
    first and the pointer position is then appended to its result; the
    document, the colour and the modes are kept. *)
Theorem pointer_move_effect (ord : eval_order) (pos : wxPoint)
  (c : PaintCanvas.t) (g : RandSrc) :
  (currentLine c = None -> OnMouseMove ord pos c g = (c, g))
  /\ (forall l, currentLine c = Some l -> rainbowMode c = true ->
        let l1 := fst (FreehandLine.UpdateRainbowColor ord l g) in
        let c' := fst (OnMouseMove ord pos c g) in
        currentLine c' = Some (FreehandLine.AddPoint pos l1)
        /\ snd (OnMouseMove ord pos c g)
           = snd (FreehandLine.UpdateRainbowColor ord l g)
        /\ FreehandLine.points (FreehandLine.AddPoint pos l1)
           = FreehandLine.points l ++ [pos]
        /\ FreehandLine.color (FreehandLine.AddPoint pos l1)
           = FreehandLine.color l1
        /\ shapes c' = shapes c
        /\ same_modes c c'
        /\ refreshes c' = S (refreshes c))
  /\ (forall l, currentLine c = Some l -> rainbowMode c = false ->
        OnMouseMove ord pos c g
        = (Refresh (set_currentLine (Some (FreehandLine.AddPoint pos l)) c),
           g)).
Proof.
  split; [apply OnMouseMove_idle|split].
  - intros l Hl Hr. cbv zeta.
    rewrite (OnMouseMove_drawing ord pos c g l Hl). rewrite Hr. simpl.
    destruct (UpdateRainbowColor_frame ord l g) as [Hp _].
    cbv zeta in Hp. rewrite Hp. unfold same_modes. repeat split.
  - intros l Hl Hr.
    rewrite (OnMouseMove_drawing ord pos c g l Hl). now rewrite Hr.
Qed.

Lemma pointer_move_effect_witness :
  OnMouseMove Order_RGB (mkPoint 9 9) (EnableRainbowMode new) counting_source
  = (EnableRainbowMode new, counting_source)
  /\ currentLine
       (fst (OnMouseMove Order_RGB (mkPoint 9 9)
               (OnLeftDown (mkPoint 1 1) (EnableRainbowMode new))
               counting_source))
     = Some (FreehandLine.mk [mkPoint 1 1; mkPoint 9 9]
               (mkColor 44 45 46) true).
Proof.
  split.
  - apply (pointer_move_effect Order_RGB (mkPoint 9 9)
             (EnableRainbowMode new) counting_source).
    reflexivity.
  - apply (proj1 (proj2 (pointer_move_effect Order_RGB (mkPoint 9 9)
             (OnLeftDown (mkPoint 1 1) (EnableRainbowMode new))
             counting_source))
             (FreehandLine.mk [mkPoint 1 1] wxBLACK true));
      reflexivity.
Defined.

(** ** Pointer-up *)

Lemma OnLeftUp_idle (pos : wxPoint) (c : PaintCanvas.t) :
  currentLine c = None -> OnLeftUp pos c = Refresh c.
Proof. intros H. unfold OnLeftUp. now rewrite H. Qed.

Lemma OnLeftUp_drawing (pos : wxPoint) (c : PaintCanvas.t)
  (l : FreehandLine.t) :
  currentLine c = Some l ->
  shapes (OnLeftUp pos c) = shapes c ++ [ALine (FreehandLine.AddPoint pos l)]
  /\ currentLine (OnLeftUp pos c) = None.
Proof. intros H. unfold OnLeftUp. rewrite H. split; reflexivity. Qed.

Lemma OnLeftUp_clears (pos : wxPoint) (c : PaintCanvas.t) :
  idle (OnLeftUp pos c).
Proof. unfold idle, OnLeftUp. destruct (currentLine c) eqn:E; simpl; auto. Qed.

(** ** Runs of events *)

Lemma run_app (ord : eval_order) (evs1 evs2 : list event)
  (st : PaintCanvas.t * RandSrc) :
  run ord (evs1 ++ evs2) st = run ord evs2 (run ord evs1 st).
Proof. apply fold_left_app. Qed.

Lemma run_invariant (ord : eval_order) (ok : event -> bool)
  (P : PaintCanvas.t * RandSrc -> Prop) :
  (forall e st, ok e = true -> P st -> P (step ord e st)) ->
  forall evs st, forallb ok evs = true -> P st -> P (run ord evs st).
Proof.
  intros Hstep evs.
  induction evs as [|e evs IH]; simpl; intros st Hok HP.
  - exact HP.
  - apply andb_prop in Hok. destruct Hok as [He Hevs].
    apply IH; auto.
Qed.

Ltac handler_cases c :=
  unfold OnLeftDown, OnLeftUp;
  destruct (circleMode c) eqn:?, (squareMode c) eqn:?,
           (eraserMode c) eqn:?;
  simpl;
  destruct (currentLine c) eqn:?;
  simpl.

(** No event removes or reorders committed shapes: the document only
    grows at its end. *)
Lemma step_shapes_extend (ord : eval_order) (e : event)
  (st : PaintCanvas.t * RandSrc) :
  exists added, shapes (fst (step ord e st)) = shapes (fst st) ++ added.
Proof.
  destruct st as [c g]. destruct e; simpl;
    try (exists []; now rewrite app_nil_r).
  - handler_cases c;
      solve [eexists; reflexivity | exists []; now rewrite app_nil_r].
  - unfold OnMouseMove. destruct (currentLine c) as [l|]; simpl.
    + destruct (if rainbowMode c then _ else _) as [l1 g1]. simpl.
      exists []. now rewrite app_nil_r.
    + exists []. now rewrite app_nil_r.
  - handler_cases c;
      solve [eexists; reflexivity | exists []; now rewrite app_nil_r].
Qed.

Lemma run_shapes_extend (ord : eval_order) (evs : list event)
  (st : PaintCanvas.t * RandSrc) :
  exists added, shapes (fst (run ord evs st)) = shapes (fst st) ++ added.
Proof.
  revert st. induction evs as [|e evs IH]; intros st; simpl.
  - exists []. now rewrite app_nil_r.
  - destruct (IH (step ord e st)) as [a2 H2].
    destruct (step_shapes_extend ord e st) as [a1 H1].
    exists (a1 ++ a2). fold (run ord evs (step ord e st)).
    now rewrite H2, H1, app_assoc.
Qed.

Lemma step_no_stamp_held (ord : eval_order) (e : event)
  (st : PaintCanvas.t * RandSrc) :
  no_stamp_held (fst st) -> no_stamp_held (fst (step ord e st)).
Proof.
  destruct st as [c g]. unfold no_stamp_held. simpl. intros [Hc Hs].
  destruct e; simpl; auto.
  - handler_cases c; auto.
  - unfold OnMouseMove. destruct (currentLine c) as [l|]; simpl; auto.
    destruct (if rainbowMode c then _ else _) as [l1 g1]. simpl. auto.
  - handler_cases c; auto.
Qed.

Lemma reachable_no_stamp_held (ord : eval_order) (evs : list event)
  (g : RandSrc) :
  no_stamp_held (fst (run ord evs (new, g))).
Proof.
  apply (run_invariant ord (fun _ => true)
           (fun st => no_stamp_held (fst st))).
  - intros e st _. apply step_no_stamp_held.
  - now apply forallb_forall.
  - split; reflexivity.
Qed.

Lemma menu_frame (ord : eval_order) (evs : list event)
  (c : PaintCanvas.t) (g : RandSrc) :
  forallb is_menu evs = true ->
  let st := run ord evs (c, g) in
  shapes (fst st) = shapes c
  /\ currentLine (fst st) = currentLine c
  /\ currentCircle (fst st) = currentCircle c
  /\ currentSquare (fst st) = currentSquare c
  /\ snd st = g.
Proof.
  intros H. cbv zeta.
  apply (run_invariant ord is_menu
           (fun st => shapes (fst st) = shapes c
                      /\ currentLine (fst st) = currentLine c
                      /\ currentCircle (fst st) = currentCircle c
                      /\ currentSquare (fst st) = currentSquare c
                      /\ snd st = g)); auto.
  intros e [c0 g0] He HP. destruct e; try discriminate; exact HP.
Qed.

Lemma moves_frame (ord : eval_order) (mid : list wxPoint)
  (c : PaintCanvas.t) (g : RandSrc) :
  let c' := fst (run ord (map MouseMove mid) (c, g)) in
  shapes c' = shapes c
  /\ (currentLine c = None -> currentLine c' = None)
  /\ (currentLine c <> None -> currentLine c' <> None).
Proof.
  revert c g. induction mid as [|p mid IH]; intros c g; simpl.
  - tauto.
  - unfold OnMouseMove at 1 2 3. destruct (currentLine c) as [l|] eqn:El.
    + destruct (if rainbowMode c then _ else _) as [l1 g1].
      specialize (IH (Refresh (set_currentLine
                       (Some (FreehandLine.AddPoint p l1)) c)) g1).
      cbv zeta in IH. destruct IH as (Hs & _ & Hl).
      fold (run ord (map MouseMove mid)
              (Refresh (set_currentLine
                 (Some (FreehandLine.AddPoint p l1)) c), g1)).
      repeat split.
      * exact Hs.
      * discriminate.
      * intros _. apply Hl. discriminate.
    + specialize (IH c g). cbv zeta in IH.
      destruct IH as (Hs & Hn & _).
      fold (run ord (map MouseMove mid) (c, g)).
      repeat split; auto.
Qed.

Lemma run_gesture (ord : eval_order) (p0 : wxPoint) (mid : list wxPoint)
  (p1 : wxPoint) (c : PaintCanvas.t) (g : RandSrc) :
  fst (run ord (gesture p0 mid p1) (c, g))
  = OnLeftUp p1 (fst (run ord (map MouseMove mid) (OnLeftDown p0 c, g))).
Proof.
  unfold gesture.
  change (LeftDown p0 :: map MouseMove mid ++ [LeftUp p1])
    with ([LeftDown p0] ++ map MouseMove mid ++ [LeftUp p1]).
  rewrite !run_app. simpl.
  now destruct (run ord (map MouseMove mid) (OnLeftDown p0 c, g)).
Qed.

(** ** Gestures *)

(** After every pointer-up, and on a new canvas, nothing is in progress;
    menu entries and pointer-moves keep it so.  A gesture that follows
    complete gestures therefore starts idle. *)
Lemma idle_between_gestures (ord : eval_order) (evs : list event)
  (c : PaintCanvas.t) (g : RandSrc) :
  idle c ->
  forallb (fun e => is_move e || is_menu e) evs = true ->
  idle (fst (run ord evs (c, g))).
Proof.
  intros Hc Hok.
  apply (run_invariant ord (fun e => is_move e || is_menu e)
           (fun st => idle (fst st))); auto.
  intros e [c0 g0] He H0. unfold idle in *. simpl in H0.
  destruct e; try discriminate; simpl; auto.
  now rewrite (OnMouseMove_idle ord pos c0 g0 H0).
Qed.

(** A gesture that starts in a stamp mode on a line still in progress
    commits two shapes: the stamp, and then the old line. *)
Lemma gesture_on_stale_line (ord : eval_order) (p0 : wxPoint)
  (mid : list wxPoint) (p1 : wxPoint) (c : PaintCanvas.t) (g : RandSrc) :
  ~ idle c -> ~ freehand c ->
  length (shapes (fst (run ord (gesture p0 mid p1) (c, g))))
  = S (S (length (shapes c))).
Proof.
  intros Hi Hf. rewrite run_gesture.
  assert (Hm : circleMode c = true \/ squareMode c = true).
  { unfold freehand in Hf.
    destruct (circleMode c), (squareMode c); auto.
    all: exfalso; apply Hf; split; reflexivity. }
  destruct (moves_frame ord mid (OnLeftDown p0 c) g) as (Hs & _ & Hl).
  cbv zeta in Hs, Hl.
  assert (Hd : currentLine (OnLeftDown p0 c) <> None).
  { rewrite (OnLeftDown_stamp p0 c Hm). unfold idle in Hi.
    destruct (currentLine c); [simpl; discriminate | now contradiction Hi]. }
  specialize (Hl Hd).
  destruct (currentLine (fst (run ord (map MouseMove mid)
                                (OnLeftDown p0 c, g)))) as [l|] eqn:El;
    [|now contradiction Hl].
  destruct (OnLeftUp_drawing p1 _ l El) as [Hu _].
  rewrite Hu, Hs.
  destruct (OnLeftDown_stamp_frame p0 c Hm) as [Hd1 _].
  rewrite Hd1, !length_app. simpl. lia.
Qed.

(** C2, as stated, at a concrete input: a press whose release never
    reached the canvas, then the circle stamp picked, then one
    press-and-release gesture.  The gesture adds two shapes, not one;
    the in-progress slot is empty after it all the same. *)
Lemma gesture_after_stale_press_adds_two :
  let st := run Order_RGB stale_press (new, zero_source) in
  let st' := run Order_RGB (gesture (mkPoint 5 5) [] (mkPoint 6 6)) st in
  length (shapes (fst st)) = 0%nat
  /\ length (shapes (fst st')) = 2%nat
  /\ currentLine (fst st') = None
  /\ ~ commits_one (fst st) (fst st').
Proof.
  cbv zeta. split; [reflexivity|split; [reflexivity|split; [reflexivity|]]].
  intros [H _]. vm_compute in H. discriminate H.
Qed.

(** C2, amended.  Every gesture (pointer-down, any number of
    pointer-moves, pointer-up), from every canvas, leaves the in-progress
    slot empty after the pointer-up.  A gesture that starts with the
    in-progress slot empty, or with no stamp mode selected, leaves the
    document with exactly one more shape, appended at its end.  A
    pointer-up that arrives while the slot is empty leaves the document
    unchanged and the slot empty. *)
Theorem gesture_commits_one (ord : eval_order) (p0 : wxPoint)
  (mid : list wxPoint) (p1 : wxPoint) (c : PaintCanvas.t) (g : RandSrc) :
  let c' := fst (run ord (gesture p0 mid p1) (c, g)) in
  currentLine c' = None
  /\ (idle c \/ freehand c ->
       commits_one c c' /\ exists s, shapes c' = shapes c ++ [s])
  /\ (idle c ->
        shapes (OnLeftUp p1 c) = shapes c /\ idle (OnLeftUp p1 c)).
Proof.
  cbv zeta. split; [rewrite run_gesture; apply OnLeftUp_clears|]. split.
  - intros H. rewrite run_gesture.
    destruct (moves_frame ord mid (OnLeftDown p0 c) g) as (Hs & Hn & Hl).
    cbv zeta in Hs, Hn, Hl.
    assert (Hcases : freehand c
                     \/ (idle c /\ (circleMode c = true
                                    \/ squareMode c = true))).
    { unfold freehand in *.
      destruct (circleMode c), (squareMode c); tauto. }
    destruct Hcases as [Hf | [Hi Hm]].
    + (* a line is started, extended and committed *)
      assert (Hd : OnLeftDown p0 c
                   = Refresh (set_currentLine (Some (line_at p0 c)) c))
        by now apply OnLeftDown_freehand.
      assert (Hsome : currentLine (OnLeftDown p0 c) <> None)
        by (rewrite Hd; simpl; discriminate).
      specialize (Hl Hsome).
      destruct (currentLine (fst (run ord (map MouseMove mid)
                                    (OnLeftDown p0 c, g)))) as [l|] eqn:El;
        [|now contradiction Hl].
      destruct (OnLeftUp_drawing p1 _ l El) as [Hu Hu'].
      assert (Hshapes : shapes (OnLeftDown p0 c) = shapes c)
        by now rewrite Hd.
      unfold commits_one. rewrite Hu, Hu', Hs, Hshapes, length_app. simpl.
      repeat split; [lia | eexists; reflexivity].
    + (* a stamp is committed at once; moves and release find no line *)
      destruct (OnLeftDown_stamp_frame p0 c Hm) as [Hd Hk].
      specialize (Hn (Hk Hi)).
      rewrite (OnLeftUp_idle p1 _ Hn). unfold commits_one. simpl.
      rewrite Hn, Hs, Hd, length_app. simpl.
      repeat split; [lia | eexists; reflexivity].
  - intros Hi. split.
    + now rewrite (OnLeftUp_idle p1 c Hi).
    + apply OnLeftUp_clears.
Qed.

Lemma gesture_commits_one_witness :
  let c := EnableRainbowMode new in
  let c' := fst (run Order_RGB
                   (gesture (mkPoint 0 0) [mkPoint 1 1; mkPoint 2 2]
                      (mkPoint 3 3))
                   (c, counting_source)) in
  commits_one c c' /\ shapes (OnLeftUp (mkPoint 3 3) c) = shapes c.
Proof.
  pose proof (gesture_commits_one Order_RGB (mkPoint 0 0)
                [mkPoint 1 1; mkPoint 2 2] (mkPoint 3 3)
                (EnableRainbowMode new) counting_source) as H.
  cbv zeta in H. destruct H as (_ & H1 & H2). split.
  - apply H1. left. reflexivity.
  - apply H2. reflexivity.
Defined.

(** ** Redraw *)

Lemma OnPaint_between_handlers (c : PaintCanvas.t) :
  no_stamp_held c ->
  OnPaint c
  = flat_map Shape_Draw (shapes c)
    ++ draw_opt FreehandLine.Draw (currentLine c).
Proof.
  intros [Hc Hs]. unfold OnPaint. rewrite Hc, Hs. simpl.
  now rewrite app_nil_r.
Qed.

(** ** Lines that are not rainbow lines *)

Lemma step_keeps_plain_line (ord : eval_order) (e : event)
  (c : PaintCanvas.t) (g : RandSrc) (l : FreehandLine.t) :
  is_move e || is_menu e = true ->
  currentLine c = Some l ->
  FreehandLine.rainbowMode l = false ->
  exists l',
    currentLine (fst (step ord e (c, g))) = Some l'
    /\ FreehandLine.color l' = FreehandLine.color l
    /\ FreehandLine.rainbowMode l' = false
    /\ FreehandLine.points l' = FreehandLine.points l ++ move_positions [e]
    /\ shapes (fst (step ord e (c, g))) = shapes c.
Proof.
  intros He Hl Hr.
  destruct e; try discriminate; simpl;
    try (exists l; rewrite app_nil_r; now repeat split).
  rewrite (OnMouseMove_drawing ord pos c g l Hl). cbv zeta.
  rewrite (UpdateRainbowColor_off ord l g Hr).
  exists (FreehandLine.AddPoint pos l).
  destruct (rainbowMode c); simpl; repeat split; auto.
Qed.

Lemma run_keeps_plain_line (ord : eval_order) (evs : list event)
  (c : PaintCanvas.t) (g : RandSrc) (l : FreehandLine.t) :
  forallb (fun e => is_move e || is_menu e) evs = true ->
  currentLine c = Some l ->
  FreehandLine.rainbowMode l = false ->
  exists l',
    currentLine (fst (run ord evs (c, g))) = Some l'
    /\ FreehandLine.color l' = FreehandLine.color l
    /\ FreehandLine.rainbowMode l' = false
    /\ FreehandLine.points l' = FreehandLine.points l ++ move_positions evs
    /\ shapes (fst (run ord evs (c, g))) = shapes c.
Proof.
  revert c g l. induction evs as [|e evs IH]; intros c g l Hok Hl Hr.
  - exists l. simpl. rewrite app_nil_r. now repeat split.
  - simpl in Hok. apply andb_prop in Hok. destruct Hok as [He Hevs].
    change (run ord (e :: evs) (c, g))
      with (run ord evs (step ord e (c, g))).
    destruct (step_keeps_plain_line ord e c g l He Hl Hr)
      as (l1 & Hl1 & Hc1 & Hr1 & Hp1 & Hs1).
    destruct (step ord e (c, g)) as [c1 g1]. simpl in Hl1, Hs1.
    destruct (IH c1 g1 l1 Hevs Hl1 Hr1) as (l2 & Hl2 & Hc2 & Hr2 & Hp2 & Hs2).
    exists l2. repeat split; auto; try congruence.
    rewrite Hp2, Hp1, <- app_assoc. f_equal.
    unfold move_positions. simpl. now rewrite app_nil_r.
Qed.

(** C9.  A line in progress whose own rainbow flag is false keeps its
    colour through every sequence of pointer-moves and menu entries,
    rainbow mode included: it stays in progress, with the same colour and
    flag, and gains exactly the positions of the moves.  Once released it
    sits in the document at the position it was committed at, with the
    colour it was built with, whatever events come later.  In particular a
    stroke started in eraser mode is white when started and stays white. *)
Theorem plain_line_keeps_color (ord : eval_order) :
  (forall (c : PaintCanvas.t) (g : RandSrc) (l : FreehandLine.t)
          (evs : list event),
     currentLine c = Some l ->
     FreehandLine.rainbowMode l = false ->
     forallb (fun e => is_move e || is_menu e) evs = true ->
     let st := run ord evs (c, g) in
     (exists l',
        currentLine (fst st) = Some l'
        /\ FreehandLine.color l' = FreehandLine.color l
        /\ FreehandLine.rainbowMode l' = false
        /\ FreehandLine.points l'
           = FreehandLine.points l ++ move_positions evs)
     /\ (forall p1 later,
           exists l2,
             nth_error (shapes (fst (run ord (LeftUp p1 :: later) st)))
               (length (shapes c)) = Some (ALine l2)
             /\ FreehandLine.color l2 = FreehandLine.color l))
  /\ (forall (c : PaintCanvas.t) (g : RandSrc) (p0 : wxPoint)
             (evs : list event),
        freehand c -> eraserMode c = true ->
        forallb (fun e => is_move e || is_menu e) evs = true ->
        exists l',
          currentLine (fst (run ord (LeftDown p0 :: evs) (c, g))) = Some l'
          /\ FreehandLine.color l' = wxWHITE
          /\ FreehandLine.rainbowMode l' = false
          /\ FreehandLine.points l' = p0 :: move_positions evs).
Proof.
  split.
  - intros c g l evs Hl Hr Hok. cbv zeta.
    destruct (run_keeps_plain_line ord evs c g l Hok Hl Hr)
      as (l1 & Hl1 & Hc1 & Hr1 & Hp1 & Hs1).
    split; [exists l1; now repeat split|].
    intros p1 later.
    destruct (run ord evs (c, g)) as [c1 g1] eqn:E. simpl in Hl1, Hs1.
    change (run ord (LeftUp p1 :: later) (c1, g1))
      with (run ord later (OnLeftUp p1 c1, g1)).
    destruct (run_shapes_extend ord later (OnLeftUp p1 c1, g1))
      as [added Ha].
    simpl fst in Ha at 2.
    destruct (OnLeftUp_drawing p1 c1 l1 Hl1) as [Hu _].
    exists (FreehandLine.AddPoint p1 l1).
    rewrite Ha, Hu, Hs1, <- app_assoc.
    rewrite nth_error_app2 by lia. rewrite Nat.sub_diag. simpl.
    split; [reflexivity|exact Hc1].
  - intros c g p0 evs Hf He Hok.
    change (run ord (LeftDown p0 :: evs) (c, g))
      with (run ord evs (OnLeftDown p0 c, g)).
    assert (Hd : currentLine (OnLeftDown p0 c)
                 = Some (FreehandLine.mk [p0] wxWHITE false)).
    { rewrite (OnLeftDown_freehand p0 c Hf). unfold line_at.
      now rewrite He. }
    destruct (run_keeps_plain_line ord evs (OnLeftDown p0 c) g _
                Hok Hd eq_refl)
      as (l1 & Hl1 & Hc1 & Hr1 & Hp1 & _).
    exists l1. repeat split; auto.
Qed.

Lemma plain_line_keeps_color_witness :
  exists l',
    currentLine
      (fst (run Order_RGB
              [LeftDown (mkPoint 0 0); PickRainbow; MouseMove (mkPoint 1 1);
               MouseMove (mkPoint 2 2)]
              (EnableEraserMode new, counting_source))) = Some l'
    /\ FreehandLine.color l' = wxWHITE
    /\ FreehandLine.rainbowMode l' = false
    /\ FreehandLine.points l' = [mkPoint 0 0; mkPoint 1 1; mkPoint 2 2].
Proof.
  apply (proj2 (plain_line_keeps_color Order_RGB)
           (EnableEraserMode new) counting_source (mkPoint 0 0)
           [PickRainbow; MouseMove (mkPoint 1 1); MouseMove (mkPoint 2 2)]).
  - split; reflexivity.
  - reflexivity.
  - reflexivity.
Defined.

(** ** Recolouring a shape *)

(** X1.  [SetColor] on any shape replaces its colour and nothing else:
    the geometry (centre and radius, corner and side, points) and the draw
    calls are the same, the last colour set wins, and the recoloured shape
    is drawn with the new colour selected.  On a rainbow line the colour
    set this way lasts only until the next [UpdateRainbowColor]. *)
Theorem set_color_recolours_only (k : wxColor) (s : Shape) :
  Shape_color (Shape_SetColor k s) = k
  /\ geometry (Shape_SetColor k s) = geometry s
  /\ draw_calls (Shape_Draw (Shape_SetColor k s)) = draw_calls (Shape_Draw s)
  /\ (forall k', Shape_SetColor k' (Shape_SetColor k s) = Shape_SetColor k' s)
  /\ Shape_SetColor (Shape_color s) s = s
  /\ (forall t,
        Forall (fun d => own_colour (Shape_SetColor k s) (snd d))
          (in_force t (Shape_Draw (Shape_SetColor k s))))
  /\ (forall ord g l,
        s = ALine l ->
        FreehandLine.rainbowMode l = true ->
        FreehandLine.UpdateRainbowColor ord (FreehandLine.SetColor k l) g
        = FreehandLine.UpdateRainbowColor ord l g).
Proof.
  destruct s as [c|q|l]; simpl.
  - repeat split; try (now destruct c);
      try (intros t; repeat constructor); discriminate.
  - repeat split; try (now destruct q);
      try (intros t; repeat constructor); discriminate.
  - split; [reflexivity|]. split; [reflexivity|]. split; [reflexivity|].
    split; [reflexivity|]. split; [now destruct l|]. split.
    + intros t. unfold FreehandLine.Draw. simpl.
      destruct (1 <? length (FreehandLine.points l))%nat; simpl;
        repeat constructor.
    + intros ord g l0 E Hr. injection E as <-.
      unfold FreehandLine.UpdateRainbowColor. simpl. rewrite Hr.
      destruct (assign_args ord _ _ _) as [[r gr] b]. reflexivity.
Qed.

Lemma set_color_recolours_only_witness :
  FreehandLine.UpdateRainbowColor Order_RGB
    (FreehandLine.SetColor wxRED (FreehandLine.mk [mkPoint 1 1] wxBLUE true))
    counting_source
  = FreehandLine.UpdateRainbowColor Order_RGB
      (FreehandLine.mk [mkPoint 1 1] wxBLUE true) counting_source.
Proof.
  apply (set_color_recolours_only wxRED
           (ALine (FreehandLine.mk [mkPoint 1 1] wxBLUE true))
         ); reflexivity.
Defined.

(** ** The tools in force during a redraw *)

Lemma in_force_app (t : dc_tools) (log1 log2 : list dc_call) :
  in_force t (log1 ++ log2)
  = in_force t log1 ++ in_force (tools_after t log1) log2.
Proof.
  revert t. induction log1 as [|k log1 IH]; intros t; simpl.
  - reflexivity.
  - now rewrite IH, app_assoc.
Qed.

Lemma in_force_shape (t : dc_tools) (s : Shape) :
  Forall (fun d => fst d = geometry s /\ own_colour s (snd d))
    (in_force t (Shape_Draw s)).
Proof.
  destruct s as [c|q|l]; simpl.
  - repeat constructor.
  - repeat constructor.
  - unfold FreehandLine.Draw.
    destruct (1 <? length (FreehandLine.points l))%nat; simpl;
      repeat constructor.
Qed.

Lemma in_force_shapes (ss : list Shape) (t : dc_tools) :
  Forall (fun d => exists s, In s ss /\ fst d = geometry s
                             /\ own_colour s (snd d))
    (in_force t (flat_map Shape_Draw ss)).
Proof.
  revert t. induction ss as [|s ss IH]; intros t; simpl.
  - constructor.
  - rewrite in_force_app. apply Forall_app. split.
    + eapply Forall_impl; [|apply in_force_shape].
      intros d [Hg Hc]. exists s. simpl. auto.
    + eapply Forall_impl; [|apply IH].
      intros d (s' & Hin & Hg & Hc). exists s'. simpl. auto.
Qed.

Lemma OnPaint_displayed (c : PaintCanvas.t) :
  no_stamp_held c -> OnPaint c = flat_map Shape_Draw (displayed c).
Proof.
  intros H. rewrite (OnPaint_between_handlers c H).
  unfold displayed. rewrite flat_map_app. f_equal.
  destruct (currentLine c); simpl; now rewrite ?app_nil_r.
Qed.

(** X2.  In a redraw of any canvas reached from a new one, whatever pen
    and brush the device context came with, every draw call is the
    geometry of a shape of the document or of the line in progress, made
    with that shape's own colour selected: as the brush for a circle or a
    square, as a pen of width 2 for a line.  Nothing else is drawn. *)
Theorem redraw_paints_own_colours (ord : eval_order)
  (history : list event) (g : RandSrc) (t0 : dc_tools) :
  let c := fst (run ord history (new, g)) in
  Forall (fun d => exists s, In s (displayed c) /\ fst d = geometry s
                             /\ own_colour s (snd d))
    (in_force t0 (OnPaint c)).
Proof.
  cbv zeta.
  rewrite (OnPaint_displayed _ (reachable_no_stamp_held ord history g)).
  apply in_force_shapes.
Qed.

Lemma in_force_stamps (stamps : list Shape) (t : dc_tools) :
  forallb is_stamp stamps = true ->
  in_force t (flat_map Shape_Draw stamps)
  = map (fun s => (geometry s, mkTools (pen t) (Some (Shape_color s))))
      stamps
  /\ pen (tools_after t (flat_map Shape_Draw stamps)) = pen t.
Proof.
  revert t. induction stamps as [|s stamps IH]; intros t H; simpl.
  - split; reflexivity.
  - simpl in H. apply andb_prop in H. destruct H as [Hs Hrest].
    destruct s as [c|q|l]; try discriminate; simpl.
    + destruct (IH (mkTools (pen t) (Some (Circle.color c))) Hrest)
        as [IH1 IH2]; simpl in IH1, IH2.
      unfold tools_after in *. simpl. now rewrite IH1, IH2.
    + destruct (IH (mkTools (pen t) (Some (Square.color q))) Hrest)
        as [IH1 IH2]; simpl in IH1, IH2.
      unfold tools_after in *. simpl. now rewrite IH1, IH2.
Qed.

Lemma tools_after_app (t : dc_tools) (log1 log2 : list dc_call) :
  tools_after t (log1 ++ log2) = tools_after (tools_after t log1) log2.
Proof. apply fold_left_app. Qed.

Lemma pen_after_line (t : dc_tools) (l : FreehandLine.t) :
  pen (tools_after t (FreehandLine.Draw l)) = Some (FreehandLine.color l, 2).
Proof.
  unfold FreehandLine.Draw, tools_after.
  destruct (1 <? length (FreehandLine.points l))%nat; reflexivity.
Qed.

(** X3.  [Circle::Draw] and [Square::Draw] select a brush and never a
    pen.  So in a redraw the stamps that follow a line are drawn with that
    line's pen still selected (its colour, width 2), and stamps drawn
    before any line are drawn with the pen the device context came with;
    the brush is always the stamp's own colour. *)
Theorem stamps_inherit_the_pen (t0 : dc_tools) (before : list Shape)
  (l : FreehandLine.t) (stamps : list Shape) :
  forallb is_stamp stamps = true ->
  in_force t0 (flat_map Shape_Draw (before ++ ALine l :: stamps))
  = in_force t0 (flat_map Shape_Draw (before ++ [ALine l]))
    ++ map (fun s => (geometry s,
                      mkTools (Some (FreehandLine.color l, 2))
                        (Some (Shape_color s))))
         stamps
  /\ in_force t0 (flat_map Shape_Draw stamps)
     = map (fun s => (geometry s, mkTools (pen t0) (Some (Shape_color s))))
         stamps.
Proof.
  intros H. split.
  - change (before ++ ALine l :: stamps)
      with (before ++ [ALine l] ++ stamps).
    rewrite app_assoc, flat_map_app, in_force_app. f_equal.
    destruct (in_force_stamps stamps
                (tools_after t0 (flat_map Shape_Draw (before ++ [ALine l])))
                H) as [H1 _].
    rewrite H1. apply map_ext. intros s. repeat f_equal.
    rewrite flat_map_app, tools_after_app. simpl. rewrite app_nil_r.
    apply pen_after_line.
  - apply in_force_stamps, H.
Qed.

Lemma stamps_inherit_the_pen_witness :
  in_force (mkTools None None)
    (flat_map Shape_Draw
       ([] ++ ALine (FreehandLine.mk [mkPoint 0 0; mkPoint 4 4] wxWHITE false)
           :: [ACircle (Circle.new (mkPoint 9 9) 50 wxRED)]))
  = in_force (mkTools None None)
      (flat_map Shape_Draw
         ([] ++ [ALine (FreehandLine.mk [mkPoint 0 0; mkPoint 4 4]
                          wxWHITE false)]))
    ++ [(DrawCircle (mkPoint 9 9) 50,
         mkTools (Some (wxWHITE, 2)) (Some wxRED))].
Proof.
  apply (stamps_inherit_the_pen (mkTools None None) []
           (FreehandLine.mk [mkPoint 0 0; mkPoint 4 4] wxWHITE false)
           [ACircle (Circle.new (mkPoint 9 9) 50 wxRED)]).
  reflexivity.
Defined.

(** ** Committed lines are never single points *)

Lemma step_lines_complete (ord : eval_order) (e : event)
  (st : PaintCanvas.t * RandSrc) :
  Forall line_complete (shapes (fst st))
  /\ (forall l, currentLine (fst st) = Some l ->
                (1 <= length (FreehandLine.points l))%nat) ->
  Forall line_complete (shapes (fst (step ord e st)))
  /\ (forall l, currentLine (fst (step ord e st)) = Some l ->
                (1 <= length (FreehandLine.points l))%nat).
Proof.
  destruct st as [c g]. simpl. intros [Hs Hl].
  destruct e; simpl; auto.
  - (* LeftDown *)
    handler_cases c; split;
      try (apply Forall_app; split; [exact Hs | repeat constructor]);
      try exact Hs;
      intros l0 E; try congruence; injection E as <-; simpl;
      rewrite ?length_app; simpl; lia.
  - (* MouseMove *)
    unfold OnMouseMove. destruct (currentLine c) as [l|] eqn:El; simpl.
    + destruct (if rainbowMode c then _ else _) as [l1 g1]. simpl.
      split; [exact Hs|]. intros l0 E. injection E as <-. simpl.
      rewrite length_app. simpl. lia.
    + split; [exact Hs|]. intros l0 E. rewrite El in E. discriminate.
  - (* LeftUp *)
    unfold OnLeftUp. destruct (currentLine c) as [l|] eqn:El; simpl.
    + split; [|discriminate].
      apply Forall_app. split; [exact Hs|].
      repeat constructor. simpl. rewrite length_app. simpl.
      specialize (Hl l eq_refl). lia.
    + split; [exact Hs|]. intros l0 E. rewrite El in E. discriminate.
Qed.

Lemma draw_calls_complete (ss : list Shape) :
  Forall line_complete ss ->
  draw_calls (flat_map Shape_Draw ss) = map geometry ss.
Proof.
  induction 1 as [|s ss Hs _ IH]; simpl.
  - reflexivity.
  - unfold draw_calls in *. rewrite filter_app, IH. f_equal.
    destruct s as [c|q|l]; try reflexivity.
    simpl in Hs. change (Shape_Draw (ALine l)) with (FreehandLine.Draw l).
    now rewrite (Draw_long l Hs).
Qed.

(** X4.  On any canvas reached from a new one, every line of the
    document has at least two points (its press and its release point,
    even for a tap without any move), and a line in progress has at least
    one.  Hence the redraw issues exactly one draw call for every
    committed shape, in document order: no committed line is skipped by
    the fewer-than-two-points test of [FreehandLine::Draw]. *)
Theorem committed_shapes_are_all_drawn (ord : eval_order)
  (history : list event) (g : RandSrc) :
  let c := fst (run ord history (new, g)) in
  Forall line_complete (shapes c)
  /\ (forall l, currentLine c = Some l ->
                (1 <= length (FreehandLine.points l))%nat)
  /\ draw_calls (flat_map Shape_Draw (shapes c)) = map geometry (shapes c)
  /\ length (draw_calls (flat_map Shape_Draw (shapes c)))
     = length (shapes c).
Proof.
  cbv zeta.
  assert (H : Forall line_complete (shapes (fst (run ord history (new, g))))
              /\ (forall l,
                    currentLine (fst (run ord history (new, g))) = Some l ->
                    (1 <= length (FreehandLine.points l))%nat)).
  { apply (run_invariant ord (fun _ => true)
             (fun st => Forall line_complete (shapes (fst st))
                        /\ (forall l, currentLine (fst st) = Some l ->
                              (1 <= length (FreehandLine.points l))%nat))).
    - intros e st _. apply step_lines_complete.
    - now apply forallb_forall.
    - split; [constructor|discriminate]. }
  destruct H as [Hs Hl].
  repeat split; auto.
  - now apply draw_calls_complete.
  - rewrite (draw_calls_complete _ Hs). apply length_map.
Qed.

Lemma committed_shapes_are_all_drawn_witness :
  (1 <= length (FreehandLine.points
                  (FreehandLine.mk [mkPoint 0 0] wxBLACK false)))%nat.
Proof.
  apply (proj1 (proj2 (committed_shapes_are_all_drawn Order_RGB
                         [LeftDown (mkPoint 0 0)] zero_source))).
  reflexivity.
Defined.

(** ** The order of a redraw *)

Lemma reachable_lines_complete (ord : eval_order) (history : list event)
  (g : RandSrc) :
  Forall line_complete (shapes (fst (run ord history (new, g)))).
Proof.
  apply (run_invariant ord (fun _ => true)
           (fun st => Forall line_complete (shapes (fst st))
                      /\ (forall l, currentLine (fst st) = Some l ->
                            (1 <= length (FreehandLine.points l))%nat))).
  - intros e st _. apply step_lines_complete.
  - now apply forallb_forall.
  - split; [constructor|discriminate].
Qed.

Lemma in_force_one (t : dc_tools) (s : Shape) :
  line_complete s ->
  exists t',
    in_force t (Shape_Draw s) = [(geometry s, t')] /\ own_colour s t'.
Proof.
  destruct s as [k|q|l]; intros H.
  - eexists. split; reflexivity.
  - eexists. split; reflexivity.
  - simpl in H. change (Shape_Draw (ALine l)) with (FreehandLine.Draw l).
    rewrite (Draw_long l H). eexists. split; reflexivity.
Qed.

Lemma in_force_complete (ss : list Shape) (t : dc_tools) :
  Forall line_complete ss ->
  Forall2 (fun s d => fst d = geometry s /\ own_colour s (snd d))
    ss (in_force t (flat_map Shape_Draw ss)).
Proof.
  intros H. revert t. induction H as [|s ss Hs _ IH]; intros t; simpl.
  - constructor.
  - rewrite in_force_app.
    destruct (in_force_one t s Hs) as (t' & E & Hc). rewrite E. simpl.
    constructor; [now split|apply IH].
Qed.

Lemma shown_line_complete (o : option FreehandLine.t) :
  Forall line_complete (shown_line o).
Proof.
  destruct o as [l|]; unfold shown_line; [|constructor].
  destruct (Nat.leb_spec 2 (length (FreehandLine.points l))) as [H|H].
  - apply Forall_cons; [exact H|apply Forall_nil].
  - apply Forall_nil.
Qed.

Lemma draw_shown_line (o : option FreehandLine.t) (t : dc_tools) :
  in_force t (draw_opt FreehandLine.Draw o)
  = in_force t (flat_map Shape_Draw (shown_line o))
  /\ draw_calls (draw_opt FreehandLine.Draw o)
     = map geometry (shown_line o).
Proof.
  destruct o as [l|]; [|split; reflexivity].
  unfold shown_line, draw_opt.
  destruct (Nat.leb_spec 2 (length (FreehandLine.points l))) as [H|H].
  - unfold flat_map.
    change (Shape_Draw (ALine l)) with (FreehandLine.Draw l).
    rewrite (Draw_long l H). split; reflexivity.
  - rewrite (Draw_short l) by lia. split; reflexivity.
Qed.

Lemma redraw_calls (c : PaintCanvas.t) (t : dc_tools) :
  no_stamp_held c ->
  Forall line_complete (shapes c) ->
  Forall2 (fun s d => fst d = geometry s /\ own_colour s (snd d))
    (shapes c ++ shown_line (currentLine c)) (in_force t (OnPaint c))
  /\ draw_calls (OnPaint c)
     = map geometry (shapes c) ++ map geometry (shown_line (currentLine c)).
Proof.
  intros Hn Hs. rewrite (OnPaint_between_handlers c Hn). split.
  - rewrite in_force_app.
    rewrite (proj1 (draw_shown_line (currentLine c) _)).
    rewrite <- in_force_app, <- flat_map_app.
    apply in_force_complete, Forall_app. split; [exact Hs|].
    apply shown_line_complete.
  - unfold draw_calls. rewrite filter_app.
    fold (draw_calls (flat_map Shape_Draw (shapes c))).
    fold (draw_calls (draw_opt FreehandLine.Draw (currentLine c))).
    rewrite (draw_calls_complete _ Hs).
    now rewrite (proj2 (draw_shown_line (currentLine c) t)).
Qed.

(** C6.  On any canvas reached from a new one, a redraw makes exactly one
    draw call for each committed shape, in insertion order and with the
    shape's own colour selected (brush for a circle or square, pen of
    width 2 for a line), and after all of them the polyline of the line
    in progress, if there is one with at least two points.  The whole log
    is the [Draw] logs of the committed shapes in document order followed
    by the [Draw] log of the line in progress.  Whatever events follow,
    the shapes committed so far stay first in the document and their draw
    calls stay first in the redraw, in the same order, before those of
    everything added later and of the line in progress.  Menu entries
    (colour and modes) leave the whole redraw unchanged. *)
Theorem redraw_in_insertion_order (ord : eval_order)
  (history : list event) (g : RandSrc) (t0 : dc_tools) :
  let st := run ord history (new, g) in
  let c := fst st in
  Forall2 (fun s d => fst d = geometry s /\ own_colour s (snd d))
    (shapes c ++ shown_line (currentLine c)) (in_force t0 (OnPaint c))
  /\ draw_calls (OnPaint c)
     = map geometry (shapes c) ++ map geometry (shown_line (currentLine c))
  /\ OnPaint c
     = flat_map Shape_Draw (shapes c)
       ++ draw_opt FreehandLine.Draw (currentLine c)
  /\ (forall later,
        let c' := fst (run ord later st) in
        exists added,
          shapes c' = shapes c ++ added
          /\ draw_calls (OnPaint c')
             = map geometry (shapes c)
               ++ map geometry added
               ++ map geometry (shown_line (currentLine c'))
          /\ OnPaint c'
             = flat_map Shape_Draw (shapes c)
               ++ flat_map Shape_Draw added
               ++ draw_opt FreehandLine.Draw (currentLine c'))
  /\ (forall menus,
        forallb is_menu menus = true ->
        let c' := fst (run ord menus st) in
        shapes c' = shapes c /\ OnPaint c' = OnPaint c).
Proof.
  cbv zeta.
  destruct (redraw_calls (fst (run ord history (new, g))) t0
              (reachable_no_stamp_held ord history g)
              (reachable_lines_complete ord history g)) as [HF HD].
  split; [exact HF|]. split; [exact HD|]. split; [|split].
  - apply OnPaint_between_handlers, reachable_no_stamp_held.
  - intros later.
    destruct (run_shapes_extend ord later (run ord history (new, g)))
      as [added Ha].
    exists added. split; [exact Ha|].
    rewrite <- run_app in *.
    destruct (redraw_calls (fst (run ord (history ++ later) (new, g))) t0
                (reachable_no_stamp_held ord (history ++ later) g)
                (reachable_lines_complete ord (history ++ later) g))
      as [_ HD'].
    split.
    + rewrite HD', Ha, map_app. now rewrite app_assoc.
    + rewrite (OnPaint_between_handlers _
                 (reachable_no_stamp_held ord (history ++ later) g)).
      rewrite Ha, flat_map_app. now rewrite app_assoc.
  - intros menus Hm.
    destruct (run ord history (new, g)) as [c g0] eqn:E.
    destruct (menu_frame ord menus c g0 Hm) as (Hs & Hl & Hc & Hq & _).
    cbv zeta in Hs, Hl, Hc, Hq. simpl.
    split; [exact Hs|].
    unfold OnPaint. now rewrite Hs, Hl, Hc, Hq.
Qed.

Lemma redraw_in_insertion_order_witness :
  let history :=
    [PickCircle; LeftDown (mkPoint 1 1); PickColor wxRED;
     LeftDown (mkPoint 2 2); MouseMove (mkPoint 3 3)] in
  let st := run Order_RGB history (new, zero_source) in
  OnPaint (fst (run Order_RGB [PickSquare; PickColor wxBLUE; PickEraser] st))
  = OnPaint (fst st)
  /\ draw_calls (OnPaint (fst st))
     = [DrawCircle (mkPoint 1 1) 50;
        DrawLines 2 [mkPoint 2 2; mkPoint 3 3]].
Proof.
  pose proof (redraw_in_insertion_order Order_RGB
                [PickCircle; LeftDown (mkPoint 1 1); PickColor wxRED;
                 LeftDown (mkPoint 2 2); MouseMove (mkPoint 3 3)]
                zero_source (mkTools None None)) as H.
  cbv zeta in H. destruct H as (_ & HD & _ & _ & HM).
  split.
  - apply HM. reflexivity.
  - exact HD.
Defined.

(** ** What a gesture commits *)

Lemma UpdateRainbowColor_on (ord : eval_order) (l : FreehandLine.t)
  (g : RandSrc) :
  FreehandLine.rainbowMode l = true ->
  FreehandLine.UpdateRainbowColor ord l g
  = (FreehandLine.mk (FreehandLine.points l) (triple_at ord g 0) true,
     mkRand (draws g) (3 + cursor g)).
Proof.
  intros H. unfold FreehandLine.UpdateRainbowColor, rand, triple_at.
  rewrite H. simpl. rewrite !Nat.add_0_r, !Nat.add_1_r.
  replace (cursor g + 2)%nat with (S (S (cursor g))) by lia.
  rewrite (assign_args_map (fun v => Z.rem v 256)).
  destruct (assign_args ord _ _ _) as [[r gr] b].
  unfold wxColor_rgb. now rewrite !to_uchar_rem.
Qed.

Lemma triple_at_shift (ord : eval_order) (g : RandSrc) (k : nat) :
  triple_at ord (mkRand (draws g) (3 + cursor g)) k
  = triple_at ord g (3 + k).
Proof.
  unfold triple_at. cbn [cursor draws].
  replace (3 + cursor g + k)%nat with (cursor g + (3 + k))%nat by lia.
  reflexivity.
Qed.

Lemma moves_on_plain_line (ord : eval_order) (mid : list wxPoint)
  (c : PaintCanvas.t) (g : RandSrc) (l : FreehandLine.t) :
  currentLine c = Some l ->
  FreehandLine.rainbowMode l = false ->
  exists c',
    run ord (map MouseMove mid) (c, g) = (c', g)
    /\ currentLine c'
       = Some (FreehandLine.mk (FreehandLine.points l ++ mid)
                 (FreehandLine.color l) false)
    /\ shapes c' = shapes c.
Proof.
  revert c l. induction mid as [|p mid IH]; intros c l Hl Hr.
  - exists c. simpl. rewrite app_nil_r. repeat split.
    rewrite Hl. destruct l. simpl in Hr. now rewrite Hr.
  - change (run ord (map MouseMove (p :: mid)) (c, g))
      with (run ord (map MouseMove mid) (OnMouseMove ord p c g)).
    rewrite (OnMouseMove_drawing ord p c g l Hl). cbv zeta.
    rewrite (UpdateRainbowColor_off ord l g Hr).
    replace (if rainbowMode c then (l, g) else (l, g)) with (l, g)
      by now destruct (rainbowMode c).
    simpl fst. simpl snd.
    destruct (IH (Refresh (set_currentLine
                             (Some (FreehandLine.AddPoint p l)) c))
                (FreehandLine.AddPoint p l) eq_refl Hr)
      as (c' & Hrun & Hline & Hsh).
    exists c'. repeat split; auto.
    rewrite Hline. simpl. now rewrite <- app_assoc.
Qed.

Lemma moves_on_rainbow_line (ord : eval_order) (mid : list wxPoint)
  (c : PaintCanvas.t) (g : RandSrc) (l : FreehandLine.t) :
  currentLine c = Some l ->
  rainbowMode c = true ->
  FreehandLine.rainbowMode l = true ->
  exists c',
    run ord (map MouseMove mid) (c, g)
    = (c', mkRand (draws g) (3 * length mid + cursor g))
    /\ currentLine c'
       = Some (FreehandLine.mk (FreehandLine.points l ++ mid)
                 (match length mid with
                  | O => FreehandLine.color l
                  | S n => triple_at ord g (3 * n)
                  end) true)
    /\ shapes c' = shapes c.
Proof.
  revert c g l. induction mid as [|p mid IH]; intros c g l Hl Hc Hr.
  - exists c. simpl. rewrite app_nil_r. repeat split.
    + now destruct g.
    + rewrite Hl. destruct l. simpl in Hr. now rewrite Hr.
  - change (run ord (map MouseMove (p :: mid)) (c, g))
      with (run ord (map MouseMove mid) (OnMouseMove ord p c g)).
    rewrite (OnMouseMove_drawing ord p c g l Hl). cbv zeta.
    rewrite Hc, (UpdateRainbowColor_on ord l g Hr).
    simpl fst. simpl snd.
    destruct (IH (Refresh (set_currentLine
                    (Some (FreehandLine.AddPoint p
                       (FreehandLine.mk (FreehandLine.points l)
                          (triple_at ord g 0) true))) c))
                (mkRand (draws g) (3 + cursor g))
                (FreehandLine.AddPoint p
                   (FreehandLine.mk (FreehandLine.points l)
                      (triple_at ord g 0) true))
                eq_refl Hc eq_refl)
      as (c' & Hrun & Hline & Hsh).
    exists c'. repeat split; auto.
    + eapply eq_trans; [exact Hrun|].
      cbn [draws cursor length]. do 2 f_equal. lia.
    + rewrite Hline. simpl FreehandLine.points.
      simpl FreehandLine.color. rewrite <- app_assoc. simpl app.
      do 2 f_equal. simpl length.
      destruct (length mid) as [|n].
      * reflexivity.
      * rewrite triple_at_shift. f_equal. lia.
Qed.

Lemma run_gesture_pair (ord : eval_order) (p0 : wxPoint)
  (mid : list wxPoint) (p1 : wxPoint) (c : PaintCanvas.t) (g : RandSrc) :
  run ord (gesture p0 mid p1) (c, g)
  = (OnLeftUp p1 (fst (run ord (map MouseMove mid) (OnLeftDown p0 c, g))),
     snd (run ord (map MouseMove mid) (OnLeftDown p0 c, g))).
Proof.
  unfold gesture.
  change (LeftDown p0 :: map MouseMove mid ++ [LeftUp p1])
    with ([LeftDown p0] ++ map MouseMove mid ++ [LeftUp p1]).
  rewrite !run_app. simpl.
  now destruct (run ord (map MouseMove mid) (OnLeftDown p0 c, g)).
Qed.

(** X5.  A gesture in a freehand mode that is not effectively rainbow
    (eraser mode, or rainbow mode off) appends to the document one line
    holding exactly the press position, the move positions in order and
    the release position, white in eraser mode and in the current colour
    otherwise, and reads nothing from the randomness source. *)
Theorem plain_gesture_commits_its_path (ord : eval_order) (p0 : wxPoint)
  (mid : list wxPoint) (p1 : wxPoint) (c : PaintCanvas.t) (g : RandSrc) :
  freehand c ->
  eraserMode c = true \/ rainbowMode c = false ->
  let st := run ord (gesture p0 mid p1) (c, g) in
  shapes (fst st)
  = shapes c
    ++ [ALine (FreehandLine.mk (p0 :: mid ++ [p1])
                 (if eraserMode c then wxWHITE else currentColor c) false)]
  /\ currentLine (fst st) = None
  /\ snd st = g.
Proof.
  intros Hf Hm. cbv zeta. rewrite run_gesture_pair.
  rewrite (OnLeftDown_freehand p0 c Hf).
  assert (Hline : line_at p0 c
                  = FreehandLine.mk [p0]
                      (if eraserMode c then wxWHITE else currentColor c)
                      false).
  { unfold line_at. destruct (eraserMode c); [reflexivity|].
    destruct Hm as [Hm|Hm]; [discriminate|now rewrite Hm]. }
  rewrite Hline.
  destruct (moves_on_plain_line ord mid
              (Refresh (set_currentLine
                 (Some (FreehandLine.mk [p0]
                    (if eraserMode c then wxWHITE else currentColor c)
                    false)) c)) g _ eq_refl eq_refl)
    as (c' & Hrun & Hl & Hs).
  rewrite Hrun. cbn [fst snd].
  destruct (OnLeftUp_drawing p1 c' _ Hl) as [Hu Hn].
  rewrite Hu, Hn, Hs. simpl. repeat split.
Qed.

Lemma plain_gesture_commits_its_path_witness :
  shapes (fst (run Order_RGB
                 (gesture (mkPoint 0 0) [mkPoint 1 0; mkPoint 2 0]
                    (mkPoint 3 0))
                 (SetColor wxGREEN new, counting_source)))
  = [ALine (FreehandLine.mk
              [mkPoint 0 0; mkPoint 1 0; mkPoint 2 0; mkPoint 3 0]
              wxGREEN false)].
Proof.
  apply (plain_gesture_commits_its_path Order_RGB (mkPoint 0 0)
           [mkPoint 1 0; mkPoint 2 0] (mkPoint 3 0)
           (SetColor wxGREEN new) counting_source).
  - split; reflexivity.
  - right. reflexivity.
Defined.

(** X6.  A gesture in rainbow mode (no stamp mode, eraser off) with n
    pointer-moves reads exactly 3n values from the randomness source and
    appends one rainbow line holding the press, move and release
    positions.  The committed line has a single colour: the one built
    from the last three values read, at the last move before the release,
    or the current colour if there was no move. *)
Theorem rainbow_gesture_commits_last_colour (ord : eval_order)
  (p0 : wxPoint) (mid : list wxPoint) (p1 : wxPoint)
  (c : PaintCanvas.t) (g : RandSrc) :
  freehand c -> eraserMode c = false -> rainbowMode c = true ->
  let st := run ord (gesture p0 mid p1) (c, g) in
  shapes (fst st)
  = shapes c
    ++ [ALine (FreehandLine.mk (p0 :: mid ++ [p1])
                 (match length mid with
                  | O => currentColor c
                  | S n => triple_at ord g (3 * n)
                  end) true)]
  /\ currentLine (fst st) = None
  /\ snd st = mkRand (draws g) (3 * length mid + cursor g).
Proof.
  intros Hf He Hr. cbv zeta. rewrite run_gesture_pair.
  rewrite (OnLeftDown_freehand p0 c Hf).
  unfold line_at. rewrite He, Hr.
  destruct (moves_on_rainbow_line ord mid
              (Refresh (set_currentLine
                 (Some (FreehandLine.mk [p0] (currentColor c) true)) c))
              g _ eq_refl Hr eq_refl)
    as (c' & Hrun & Hl & Hs).
  rewrite Hrun. cbn [fst snd].
  destruct (OnLeftUp_drawing p1 c' _ Hl) as [Hu Hn].
  rewrite Hu, Hn, Hs. repeat split.
Qed.

Lemma rainbow_gesture_commits_last_colour_witness :
  shapes (fst (run Order_RGB
                 (gesture (mkPoint 0 0) [mkPoint 1 0; mkPoint 2 0]
                    (mkPoint 3 0))
                 (EnableRainbowMode new, counting_source)))
  = [ALine (FreehandLine.mk
              [mkPoint 0 0; mkPoint 1 0; mkPoint 2 0; mkPoint 3 0]
              (mkColor 47 48 49) true)].
Proof.
  apply (rainbow_gesture_commits_last_colour Order_RGB (mkPoint 0 0)
           [mkPoint 1 0; mkPoint 2 0] (mkPoint 3 0)
           (EnableRainbowMode new) counting_source).
  - split; reflexivity.
  - reflexivity.
  - reflexivity.
Defined.

(** ** The randomness source *)

Lemma step_randomness (ord : eval_order) (e : event) (c : PaintCanvas.t)
  (g : RandSrc) :
  snd (step ord e (c, g)) = g
  \/ (exists pos l,
        e = MouseMove pos /\ rainbowMode c = true
        /\ currentLine c = Some l /\ FreehandLine.rainbowMode l = true
        /\ snd (step ord e (c, g)) = mkRand (draws g) (3 + cursor g)).
Proof.
  destruct e; simpl; auto.
  destruct (currentLine c) as [l|] eqn:El.
  - rewrite (OnMouseMove_drawing ord pos c g l El). cbv zeta. simpl.
    destruct (rainbowMode c) eqn:Ec; auto.
    destruct (FreehandLine.rainbowMode l) eqn:Er.
    + right. exists pos, l. repeat split; auto.
      now rewrite (UpdateRainbowColor_on ord l g Er).
    + left. now rewrite (UpdateRainbowColor_off ord l g Er).
  - left. now rewrite (OnMouseMove_idle ord pos c g El).
Qed.

Lemma step_reads_rand (ord : eval_order) (e : event) (c : PaintCanvas.t)
  (g : RandSrc) :
  snd (step ord e (c, g))
  = if reads_rand e c then mkRand (draws g) (3 + cursor g) else g.
Proof.
  unfold reads_rand. destruct e; simpl; try now destruct (currentLine c).
  destruct (currentLine c) as [l|] eqn:El.
  - rewrite (OnMouseMove_drawing ord pos c g l El). cbv zeta. simpl.
    destruct (rainbowMode c); [|reflexivity]. simpl.
    destruct (FreehandLine.rainbowMode l) eqn:Er.
    + now rewrite (UpdateRainbowColor_on ord l g Er).
    + now rewrite (UpdateRainbowColor_off ord l g Er).
  - now rewrite (OnMouseMove_idle ord pos c g El).
Qed.

Lemma reads_rand_is_move (e : event) (c : PaintCanvas.t) :
  (Nat.b2n (reads_rand e c) <= length (move_positions [e]))%nat.
Proof.
  unfold reads_rand. destruct e; simpl; try lia.
  destruct (currentLine c) as [l|]; simpl; [|lia].
  destruct (rainbowMode c && FreehandLine.rainbowMode l); simpl; lia.
Qed.

(** X7.  Every event leaves the randomness source as it was, except a
    pointer-move that finds the canvas in rainbow mode and a rainbow line
    in progress: that move reads exactly three values.  Over any run the
    source is advanced by exactly three values for each such move, hence
    by at most three per pointer-move, and is never rewound or
    replaced. *)
Theorem randomness_read_only_by_rainbow_moves (ord : eval_order)
  (evs : list event) (c : PaintCanvas.t) (g : RandSrc) :
  (forall e,
     snd (step ord e (c, g))
     = if reads_rand e c then mkRand (draws g) (3 + cursor g) else g)
  /\ (forall e,
        snd (step ord e (c, g)) = g
        \/ (exists pos l,
              e = MouseMove pos /\ rainbowMode c = true
              /\ currentLine c = Some l /\ FreehandLine.rainbowMode l = true
              /\ snd (step ord e (c, g)) = mkRand (draws g) (3 + cursor g)))
  /\ snd (run ord evs (c, g))
     = mkRand (draws g) (3 * rand_reads ord evs (c, g) + cursor g)
  /\ (rand_reads ord evs (c, g) <= length (move_positions evs))%nat
  /\ draws (snd (run ord evs (c, g))) = draws g
  /\ (cursor g <= cursor (snd (run ord evs (c, g)))
      <= cursor g + 3 * length (move_positions evs))%nat.
Proof.
  split; [intros e; apply step_reads_rand|].
  split; [intros e; apply step_randomness|].
  assert (H : snd (run ord evs (c, g))
              = mkRand (draws g) (3 * rand_reads ord evs (c, g) + cursor g)
              /\ (rand_reads ord evs (c, g)
                  <= length (move_positions evs))%nat).
  { revert c g. induction evs as [|e evs IH]; intros c g.
    - simpl. split; [now destruct g|lia].
    - change (run ord (e :: evs) (c, g))
        with (run ord evs (step ord e (c, g))).
      change (rand_reads ord (e :: evs) (c, g))
        with (Nat.b2n (reads_rand e c)
              + rand_reads ord evs (step ord e (c, g)))%nat.
      pose proof (step_reads_rand ord e c g) as Hs.
      pose proof (reads_rand_is_move e c) as Hm.
      destruct (step ord e (c, g)) as [c1 g1]. cbn [snd] in Hs. subst g1.
      destruct (IH c1 (if reads_rand e c
                       then mkRand (draws g) (3 + cursor g) else g))
        as [IH1 IH2].
      split.
      + rewrite IH1. destruct (reads_rand e c); simpl.
        * f_equal. lia.
        * reflexivity.
      + assert (length (move_positions (e :: evs))
                = length (move_positions [e])
                  + length (move_positions evs))%nat.
        { unfold move_positions. simpl.
          rewrite !length_app. simpl. lia. }
        lia. }
  destruct H as [H1 H2].
  split; [exact H1|]. split; [exact H2|].
  rewrite H1. simpl. split; [reflexivity|lia].
Qed.

Lemma randomness_read_only_by_rainbow_moves_witness :
  snd (run Order_RGB
         [PickRainbow; LeftDown (mkPoint 0 0); MouseMove (mkPoint 1 1);
          PickEraser; MouseMove (mkPoint 2 2)]
         (new, counting_source))
  = mkRand (draws counting_source) 6.
Proof.
  apply (randomness_read_only_by_rainbow_moves Order_RGB
           [PickRainbow; LeftDown (mkPoint 0 0); MouseMove (mkPoint 1 1);
            PickEraser; MouseMove (mkPoint 2 2)]
           new counting_source).
Defined.

(** ** Modes and stamp size on reachable canvases *)

Lemma step_modes (ord : eval_order) (e : event)
  (st : PaintCanvas.t * RandSrc) :
  circleMode (fst st)
  && (rainbowMode (fst st) || eraserMode (fst st) || squareMode (fst st))
  = false
  /\ squareMode (fst st)
     && (rainbowMode (fst st) || eraserMode (fst st) || circleMode (fst st))
     = false
  /\ shapeSize (fst st) = 50
  /\ Forall (fun s => stamp_size s = None \/ stamp_size s = Some 50)
       (shapes (fst st)) ->
  let c' := fst (step ord e st) in
  circleMode c' && (rainbowMode c' || eraserMode c' || squareMode c') = false
  /\ squareMode c' && (rainbowMode c' || eraserMode c' || circleMode c')
     = false
  /\ shapeSize c' = 50
  /\ Forall (fun s => stamp_size s = None \/ stamp_size s = Some 50)
       (shapes c').
Proof.
  destruct st as [c g]. simpl. intros (H1 & H2 & H3 & H4).
  destruct e; simpl.
  - (* LeftDown *)
    unfold OnLeftDown.
    destruct (circleMode c) eqn:Ec;
      [|destruct (squareMode c) eqn:Es; [|destruct (eraserMode c) eqn:Ee]];
      simpl; destruct (currentLine c); simpl; rewrite ?Ec, ?Es, ?Ee;
      repeat split; auto;
      (apply Forall_app; split; [exact H4|];
       apply Forall_cons; [|apply Forall_nil]; simpl;
       right; now rewrite H3).
  - (* MouseMove *)
    unfold OnMouseMove. destruct (currentLine c) as [l|]; simpl; auto.
    destruct (if rainbowMode c then _ else _) as [l1 g1]. simpl. auto.
  - (* LeftUp *)
    unfold OnLeftUp. destruct (currentLine c) as [l|]; simpl; auto.
    repeat split; auto.
    apply Forall_app; split; auto.
  - repeat split; auto.
  - repeat split; auto.
  - repeat split; auto.
  - repeat split; auto.
  - repeat split; auto.
Qed.

(** X8.  On any canvas reached from a new one a stamp mode is never
    combined with another mode: with the circle flag set, or the square
    flag set, the three other flags are clear.  At most two flags are set,
    and two only as eraser together with rainbow.  The stamp size is never
    written: it is 50, and every circle and square of the document has
    radius or side 50. *)
Theorem stamp_modes_exclusive_and_size_fixed (ord : eval_order)
  (history : list event) (g : RandSrc) :
  let c := fst (run ord history (new, g)) in
  circleMode c && (rainbowMode c || eraserMode c || squareMode c) = false
  /\ squareMode c && (rainbowMode c || eraserMode c || circleMode c) = false
  /\ (flags_set c <= 2)%nat
  /\ (flags_set c = 2%nat /\ rainbowMode c && eraserMode c = true
      \/ exclusive c)
  /\ shapeSize c = 50
  /\ Forall (fun s => stamp_size s = None \/ stamp_size s = Some 50)
       (shapes c).
Proof.
  cbv zeta.
  pose proof
    (run_invariant ord (fun _ => true)
       (fun st =>
          circleMode (fst st)
          && (rainbowMode (fst st) || eraserMode (fst st)
              || squareMode (fst st)) = false
          /\ squareMode (fst st)
             && (rainbowMode (fst st) || eraserMode (fst st)
                 || circleMode (fst st)) = false
          /\ shapeSize (fst st) = 50
          /\ Forall (fun s => stamp_size s = None \/ stamp_size s = Some 50)
               (shapes (fst st)))
       (fun e st _ => step_modes ord e st) history (new, g)) as H.
  destruct H as (H1 & H2 & H3 & H4).
  - now apply forallb_forall.
  - simpl. repeat split. constructor.
  - repeat split; auto;
      unfold exclusive, flags_set;
      destruct (circleMode (fst (run ord history (new, g)))),
               (squareMode (fst (run ord history (new, g)))),
               (rainbowMode (fst (run ord history (new, g)))),
               (eraserMode (fst (run ord history (new, g))));
      simpl in *; try discriminate; try lia; auto.
Qed.

(** ** Heap facts *)

Lemma load_bound (h : heap) (p : nat) (s : Shape) :
  load h p = Some s -> (p < length h)%nat.
Proof.
  unfold load. intros H. apply nth_error_Some.
  destruct (nth_error h p); [discriminate|discriminate].
Qed.

Lemma load_alloc_new (h : heap) (s : Shape) :
  load (h ++ [Live s]) (length h) = Some s.
Proof.
  unfold load. rewrite nth_error_app2 by lia.
  now rewrite Nat.sub_diag.
Qed.

Lemma load_alloc_old (h : heap) (s : Shape) (p : nat) :
  (p < length h)%nat -> load (h ++ [Live s]) p = load h p.
Proof. intros H. unfold load. now rewrite nth_error_app1. Qed.

Lemma length_poke (p : nat) (v : cell) (h : heap) :
  length (poke p v h) = length h.
Proof.
  revert p. induction h as [|x h IH]; intros [|p]; simpl; auto.
Qed.

Lemma nth_error_poke_same (p : nat) (v : cell) (h : heap) :
  (p < length h)%nat -> nth_error (poke p v h) p = Some v.
Proof.
  revert p. induction h as [|x h IH]; intros [|p] H; simpl in *;
    try lia; auto.
  apply IH. lia.
Qed.

Lemma nth_error_poke_other (p q : nat) (v : cell) (h : heap) :
  p <> q -> nth_error (poke p v h) q = nth_error h q.
Proof.
  revert p q. induction h as [|x h IH]; intros [|p] [|q] H; simpl;
    auto; try congruence.
Qed.

Lemma load_poke_same (p : nat) (s : Shape) (h : heap) :
  (p < length h)%nat -> load (poke p (Live s) h) p = Some s.
Proof. intros H. unfold load. now rewrite nth_error_poke_same. Qed.

Lemma load_poke_freed (p : nat) (h : heap) :
  load (poke p Freed h) p = None.
Proof.
  unfold load. destruct (Nat.lt_ge_cases p (length h)) as [H|H].
  - now rewrite nth_error_poke_same.
  - assert (E : nth_error (poke p Freed h) p = None).
    { apply nth_error_None. now rewrite length_poke. }
    now rewrite E.
Qed.

Lemma load_poke_other (p q : nat) (v : cell) (h : heap) :
  p <> q -> load (poke p v h) q = load h q.
Proof. intros H. unfold load. now rewrite nth_error_poke_other. Qed.

Lemma load_all_alloc (h : heap) (s : Shape) (ps : list nat)
  (ss : list Shape) :
  load_all h ps = Some ss -> load_all (h ++ [Live s]) ps = Some ss.
Proof.
  revert ss. induction ps as [|p ps IH]; intros ss; simpl; auto.
  destruct (load h p) as [x|] eqn:E; [|discriminate].
  destruct (load_all h ps) as [xs|]; [|discriminate].
  intros H. rewrite (load_alloc_old h s p (load_bound h p x E)), E.
  now rewrite (IH xs eq_refl).
Qed.

Lemma load_all_poke (h : heap) (p : nat) (v : cell) (ps : list nat) :
  ~ In p ps -> load_all (poke p v h) ps = load_all h ps.
Proof.
  induction ps as [|q ps IH]; intros H; simpl; auto.
  rewrite load_poke_other by (intros ->; apply H; now left).
  rewrite IH; auto. intros Hin. apply H. now right.
Qed.

Lemma load_all_app (h : heap) (ps qs : list nat) :
  load_all h (ps ++ qs)
  = match load_all h ps, load_all h qs with
    | Some ss, Some ts => Some (ss ++ ts)
    | _, _ => None
    end.
Proof.
  induction ps as [|p ps IH]; simpl.
  - now destruct (load_all h qs).
  - destruct (load h p); [|reflexivity]. rewrite IH.
    destruct (load_all h ps); [|reflexivity].
    now destruct (load_all h qs).
Qed.

Lemma load_all_bound (h : heap) (ps : list nat) (ss : list Shape) :
  load_all h ps = Some ss -> Forall (fun p => (p < length h)%nat) ps.
Proof.
  revert ss. induction ps as [|p ps IH]; intros ss; simpl.
  - constructor.
  - destruct (load h p) as [x|] eqn:E; [|discriminate].
    destruct (load_all h ps) as [xs|]; [|discriminate].
    intros _. constructor.
    + eapply load_bound; eauto.
    + eapply IH; eauto.
Qed.

Lemma live_count_app (h1 h2 : heap) :
  live_count (h1 ++ h2) = (live_count h1 + live_count h2)%nat.
Proof. unfold live_count. now rewrite filter_app, length_app. Qed.

Lemma live_count_poke_live (p : nat) (s x : Shape) (h : heap) :
  load h p = Some x -> live_count (poke p (Live s) h) = live_count h.
Proof.
  revert p. induction h as [|y h IH]; intros [|p]; unfold load; simpl;
    try discriminate.
  - destruct y; [reflexivity|discriminate].
  - intros H. unfold live_count in *. simpl.
    destruct y; simpl; rewrite (IH p H); reflexivity.
Qed.

Lemma live_count_poke_freed (p : nat) (x : Shape) (h : heap) :
  load h p = Some x -> S (live_count (poke p Freed h)) = live_count h.
Proof.
  revert p. induction h as [|y h IH]; intros [|p]; unfold load; simpl;
    try discriminate.
  - destruct y; [reflexivity|discriminate].
  - intros H. unfold live_count in *. simpl.
    destruct y; simpl; rewrite <- (IH p H); reflexivity.
Qed.

(** ** The heap canvas stands for the canvas *)

Lemma view_inv (c : HeapCanvas.t) (h : heap) (a : PaintCanvas.t) :
  HeapCanvas.sound c ->
  HeapCanvas.view c h = Some a ->
  load_all h (HeapCanvas.shapes c) = Some (shapes a)
  /\ load_opt (load_line h) (HeapCanvas.currentLine c)
     = Some (currentLine a)
  /\ a = PaintCanvas.mk (shapes a) (currentLine a) None None
           (HeapCanvas.currentColor c) (HeapCanvas.rainbowMode c)
           (HeapCanvas.eraserMode c) (HeapCanvas.circleMode c)
           (HeapCanvas.squareMode c) (HeapCanvas.shapeSize c)
           (HeapCanvas.refreshes c).
Proof.
  intros (_ & Hc & Hs). unfold HeapCanvas.view. rewrite Hc, Hs. simpl.
  destruct (load_all h (HeapCanvas.shapes c)) as [ss|]; [|discriminate].
  simpl.
  destruct (load_opt (load_line h) (HeapCanvas.currentLine c)) as [l|];
    [|discriminate].
  simpl. intros E. injection E as <-. simpl. repeat split.
Qed.

Lemma view_intro (c : HeapCanvas.t) (h : heap) (ss : list Shape)
  (l : option FreehandLine.t) :
  load_all h (HeapCanvas.shapes c) = Some ss ->
  load_opt (load_line h) (HeapCanvas.currentLine c) = Some l ->
  HeapCanvas.currentCircle c = None ->
  HeapCanvas.currentSquare c = None ->
  HeapCanvas.view c h
  = Some (PaintCanvas.mk ss l None None
            (HeapCanvas.currentColor c) (HeapCanvas.rainbowMode c)
            (HeapCanvas.eraserMode c) (HeapCanvas.circleMode c)
            (HeapCanvas.squareMode c) (HeapCanvas.shapeSize c)
            (HeapCanvas.refreshes c)).
Proof.
  intros H1 H2 H3 H4. unfold HeapCanvas.view.
  now rewrite H1, H2, H3, H4.
Qed.

Lemma owned_sound (c : HeapCanvas.t) :
  HeapCanvas.sound c ->
  HeapCanvas.owned c
  = HeapCanvas.shapes c
    ++ match HeapCanvas.currentLine c with Some p => [p] | None => [] end.
Proof.
  intros (_ & Hc & Hs). unfold HeapCanvas.owned. rewrite Hc, Hs.
  simpl. now rewrite app_nil_r.
Qed.

Lemma owned_bound (c : HeapCanvas.t) (h : heap) (a : PaintCanvas.t) :
  HeapCanvas.sound c ->
  HeapCanvas.view c h = Some a ->
  Forall (fun p => (p < length h)%nat) (HeapCanvas.owned c).
Proof.
  intros Hs Hv. destruct (view_inv c h a Hs Hv) as (H1 & H2 & _).
  rewrite (owned_sound c Hs). apply Forall_app. split.
  - eapply load_all_bound; eauto.
  - destruct (HeapCanvas.currentLine c) as [p|]; [|constructor].
    repeat constructor. simpl in H2. unfold load_line in H2.
    destruct (load h p) as [x|] eqn:E; [|discriminate].
    eapply load_bound; eauto.
Qed.

Lemma fresh_not_owned (c : HeapCanvas.t) (h : heap) (a : PaintCanvas.t) :
  HeapCanvas.sound c ->
  HeapCanvas.view c h = Some a ->
  ~ In (length h) (HeapCanvas.owned c).
Proof.
  intros Hs Hv Hin.
  pose proof (owned_bound c h a Hs Hv) as Hb.
  rewrite Forall_forall in Hb. specialize (Hb _ Hin). lia.
Qed.

Lemma load_line_alloc_old (h : heap) (s : Shape) (p : nat)
  (l : FreehandLine.t) :
  load_line h p = Some l -> load_line (h ++ [Live s]) p = Some l.
Proof.
  unfold load_line. destruct (load h p) as [x|] eqn:E; [|discriminate].
  intros H. now rewrite (load_alloc_old h s p (load_bound h p x E)), E.
Qed.

Lemma store_line (h : heap) (p : nat) (l l' : FreehandLine.t) :
  load_line h p = Some l ->
  store p (ALine l') h = Some (poke p (Live (ALine l')) h)
  /\ load_line (poke p (Live (ALine l')) h) p = Some l'
  /\ live_count (poke p (Live (ALine l')) h) = live_count h.
Proof.
  unfold load_line, store.
  destruct (load h p) as [x|] eqn:E; [|discriminate]. intros _.
  repeat split.
  - now rewrite (load_poke_same p (ALine l') h (load_bound h p x E)).
  - eapply live_count_poke_live; eauto.
Qed.

Lemma NoDup_snoc (ps : list nat) (p : nat) :
  NoDup ps -> ~ In p ps -> NoDup (ps ++ [p]).
Proof.
  intros H1 H2. apply NoDup_app; auto.
  - repeat constructor. intros [].
  - intros x Hx [<-|[]]. contradiction.
Qed.

Lemma NoDup_snoc_inv (ps : list nat) (p : nat) :
  NoDup (ps ++ [p]) -> NoDup ps /\ ~ In p ps.
Proof.
  intros H. apply NoDup_remove in H. rewrite app_nil_r in H. exact H.
Qed.

Lemma OnLeftUp_refines (pos : wxPoint) (c : HeapCanvas.t) (h : heap)
  (a : PaintCanvas.t) :
  agrees c h a ->
  exists c' h',
    HeapCanvas.OnLeftUp pos c h = Some (c', h')
    /\ agrees c' h' (OnLeftUp pos a)
    /\ live_count h' = live_count h
    /\ length (HeapCanvas.owned c') = length (HeapCanvas.owned c).
Proof.
  intros [Hs Hv]. destruct (view_inv c h a Hs Hv) as (H1 & H2 & Ha).
  pose proof (owned_sound c Hs) as Ho.
  destruct Hs as (Hnd & Hcc & Hcs).
  unfold HeapCanvas.OnLeftUp, OnLeftUp.
  destruct (HeapCanvas.currentLine c) as [p|] eqn:El; simpl in H2.
  - destruct (load_line h p) as [l|] eqn:Ell; [|discriminate].
    injection H2 as H2. rewrite <- H2.
    destruct (store_line h p l (FreehandLine.AddPoint pos l) Ell)
      as (St & Ld & Lc).
    simpl. rewrite St. simpl.
    rewrite Ho in Hnd. destruct (NoDup_snoc_inv _ _ Hnd) as [Hnd1 Hnin].
    eexists. eexists. split; [reflexivity|].
    split; [split|split].
    + unfold HeapCanvas.sound, HeapCanvas.owned. simpl.
      rewrite Hcc, Hcs. simpl. rewrite app_nil_r.
      repeat split. now apply NoDup_snoc.
    + rewrite Ha at 1.
      erewrite view_intro;
        [reflexivity | simpl | reflexivity | exact Hcc | exact Hcs].
      rewrite load_all_app, (load_all_poke h p _ _ Hnin), H1. simpl.
      unfold load_line in Ld.
      destruct (load (poke p (Live (ALine (FreehandLine.AddPoint pos l))) h)
                  p) as [[k|q|l']|]; try discriminate.
      now injection Ld as ->.
    + exact Lc.
    + rewrite Ho. unfold HeapCanvas.owned. simpl. rewrite Hcc, Hcs.
      simpl. now rewrite app_nil_r.
  - injection H2 as H2. rewrite <- H2.
    eexists. eexists. split; [reflexivity|].
    split; [split|split].
    + unfold HeapCanvas.sound, HeapCanvas.owned in *. simpl.
      rewrite El, Hcc, Hcs in *. repeat split. exact Hnd.
    + rewrite Ha at 1.
      erewrite view_intro;
        [reflexivity | exact H1 | simpl | exact Hcc | exact Hcs].
      rewrite El. simpl. congruence.
    + reflexivity.
    + reflexivity.
Qed.

Lemma load_line_inv (h : heap) (p : nat) (l : FreehandLine.t) :
  load_line h p = Some l -> load h p = Some (ALine l).
Proof.
  unfold load_line. destruct (load h p) as [[k|q|l']|]; try discriminate.
  now intros [= ->].
Qed.

Lemma load_line_poke_other (h : heap) (p q : nat) (v : cell) :
  p <> q -> load_line (poke p v h) q = load_line h q.
Proof. intros H. unfold load_line. now rewrite load_poke_other. Qed.

Lemma OnMouseMove_refines (ord : eval_order) (pos : wxPoint)
  (c : HeapCanvas.t) (h : heap) (g : RandSrc) (a : PaintCanvas.t) :
  agrees c h a ->
  exists c' h',
    HeapCanvas.OnMouseMove ord pos c h g
    = Some (c', h', snd (OnMouseMove ord pos a g))
    /\ agrees c' h' (fst (OnMouseMove ord pos a g))
    /\ live_count h' = live_count h
    /\ HeapCanvas.owned c' = HeapCanvas.owned c.
Proof.
  intros [Hs Hv]. destruct (view_inv c h a Hs Hv) as (H1 & H2 & Ha).
  pose proof (owned_sound c Hs) as Ho.
  assert (Hr : rainbowMode a = HeapCanvas.rainbowMode c)
    by (rewrite Ha; reflexivity).
  destruct Hs as (Hnd & Hcc & Hcs).
  unfold HeapCanvas.OnMouseMove.
  destruct (HeapCanvas.currentLine c) as [p|] eqn:El; simpl in H2.
  - destruct (load_line h p) as [l|] eqn:Ell; [|discriminate].
    injection H2 as H2. symmetry in H2.
    rewrite (OnMouseMove_drawing ord pos a g l H2). cbv zeta.
    rewrite Ho in Hnd. destruct (NoDup_snoc_inv _ _ Hnd) as [Hnd1 Hnin].
    rewrite Hr.
    assert (Hgen : forall h1 l1 (g1 : RandSrc),
               load_all h1 (HeapCanvas.shapes c) = Some (shapes a) ->
               load_line h1 p = Some l1 ->
               live_count h1 = live_count h ->
               exists h',
                 (l0 <- load_line h1 p ;;
                  h2 <- store p (ALine (FreehandLine.AddPoint pos l0)) h1 ;;
                  Some (HeapCanvas.Refresh c, h2, g1))
                 = Some (HeapCanvas.Refresh c, h', g1)
                 /\ agrees (HeapCanvas.Refresh c) h'
                      (Refresh (set_currentLine
                         (Some (FreehandLine.AddPoint pos l1)) a))
                 /\ live_count h' = live_count h).
    { intros h1 l1 g1 Hall Hl1 Hlc.
      destruct (store_line h1 p l1 (FreehandLine.AddPoint pos l1) Hl1)
        as (St & Ld & Lc).
      rewrite Hl1. simpl. rewrite St. simpl.
      eexists. split; [reflexivity|]. split; [split|congruence].
      - unfold HeapCanvas.sound, HeapCanvas.owned. simpl.
        rewrite El, Hcc, Hcs. simpl. rewrite ?app_nil_r. auto.
      - rewrite Ha at 1.
        erewrite view_intro;
          [reflexivity | simpl | simpl | exact Hcc | exact Hcs].
        + now rewrite (load_all_poke h1 p _ _ Hnin).
        + rewrite El. simpl. now rewrite Ld. }
    destruct (HeapCanvas.rainbowMode c).
    + destruct (store_line h p l
                  (fst (FreehandLine.UpdateRainbowColor ord l g)) Ell)
        as (St & Ld & Lc).
      simpl. rewrite St. simpl.
      destruct (Hgen _ _ (snd (FreehandLine.UpdateRainbowColor ord l g))
                  (eq_trans (load_all_poke h p _ _ Hnin) H1) Ld Lc)
        as (h' & E & Hag & Hlc).
      exists (HeapCanvas.Refresh c), h'.
      split; [exact E|]. split; [exact Hag|]. split; [exact Hlc|].
      reflexivity.
    + simpl.
      destruct (Hgen h l g H1 Ell eq_refl) as (h' & E & Hag & Hlc).
      exists (HeapCanvas.Refresh c), h'.
      split; [exact E|]. split; [exact Hag|]. split; [exact Hlc|].
      reflexivity.
  - injection H2 as H2. symmetry in H2.
    rewrite (OnMouseMove_idle ord pos a g H2). simpl.
    exists c, h. repeat split; auto.
Qed.

Lemma load_all_snoc_fresh (h : heap) (s : Shape) (ps : list nat)
  (ss : list Shape) :
  load_all h ps = Some ss ->
  load_all (h ++ [Live s]) (ps ++ [length h]) = Some (ss ++ [s]).
Proof.
  intros H. rewrite load_all_app, (load_all_alloc h s ps ss H). simpl.
  now rewrite load_alloc_new.
Qed.

Lemma live_count_alloc (h : heap) (s : Shape) :
  live_count (h ++ [Live s]) = S (live_count h).
Proof. rewrite live_count_app. unfold live_count at 2. simpl. lia. Qed.

(** After an allocation, the write that [OnLeftDown] makes through
    [currentLine]: to the line [p] already in progress. *)
Lemma add_point_after_alloc (h : heap) (s : Shape) (p : nat)
  (l : FreehandLine.t) (pos : wxPoint) (ps : list nat) (ss : list Shape) :
  load_line h p = Some l ->
  load_all h ps = Some ss ->
  ~ In p ps ->
  let h1 := h ++ [Live s] in
  let h2 := poke p (Live (ALine (FreehandLine.AddPoint pos l))) h1 in
  load_line h1 p = Some l
  /\ store p (ALine (FreehandLine.AddPoint pos l)) h1 = Some h2
  /\ load_line h2 p = Some (FreehandLine.AddPoint pos l)
  /\ load_all h2 (ps ++ [length h]) = Some (ss ++ [s])
  /\ live_count h2 = S (live_count h)
  /\ p <> length h.
Proof.
  intros Hl Hall Hnin. cbv zeta.
  pose proof (load_line_alloc_old h s p l Hl) as Hl1.
  destruct (store_line _ p l (FreehandLine.AddPoint pos l) Hl1)
    as (St & Ld & Lc).
  assert (Hne : p <> length h).
  { apply load_line_inv, load_bound in Hl. lia. }
  repeat split; auto.
  - rewrite load_all_poke.
    + now apply load_all_snoc_fresh.
    + intros Hin. apply in_app_or in Hin. destruct Hin as [Hin|[Hin|[]]];
        [now apply Hnin | now apply Hne].
  - rewrite Lc. apply live_count_alloc.
Qed.

(** After the allocation of a new line, the write that [OnLeftDown]
    makes through [currentLine]: to the new line. *)
Lemma add_point_to_new_line (h : heap) (l : FreehandLine.t)
  (pos : wxPoint) (ps : list nat) (ss : list Shape) :
  load_all h ps = Some ss ->
  let h1 := h ++ [Live (ALine l)] in
  let h2 := poke (length h) (Live (ALine (FreehandLine.AddPoint pos l))) h1 in
  load_line h1 (length h) = Some l
  /\ store (length h) (ALine (FreehandLine.AddPoint pos l)) h1 = Some h2
  /\ load_line h2 (length h) = Some (FreehandLine.AddPoint pos l)
  /\ load_all h2 ps = Some ss
  /\ live_count h2 = S (live_count h).
Proof.
  intros Hall. cbv zeta.
  assert (Hl1 : load_line (h ++ [Live (ALine l)]) (length h) = Some l).
  { unfold load_line. now rewrite load_alloc_new. }
  destruct (store_line _ (length h) l (FreehandLine.AddPoint pos l) Hl1)
    as (St & Ld & Lc).
  repeat split; auto.
  - rewrite load_all_poke.
    + now apply load_all_alloc.
    + intros Hin. apply load_all_bound in Hall.
      rewrite Forall_forall in Hall. specialize (Hall _ Hin). lia.
  - rewrite Lc. apply live_count_alloc.
Qed.

Lemma OnLeftDown_refines (pos : wxPoint) (c : HeapCanvas.t) (h : heap)
  (a : PaintCanvas.t) :
  agrees c h a ->
  exists c' h',
    HeapCanvas.OnLeftDown pos c h = Some (c', h')
    /\ agrees c' h' (OnLeftDown pos a)
    /\ live_count h' = S (live_count h)
    /\ (length (HeapCanvas.owned c')
        + Nat.b2n (orphans_line (LeftDown pos) a)
        = S (length (HeapCanvas.owned c)))%nat.
Proof.
  intros [Hs Hv]. destruct (view_inv c h a Hs Hv) as (H1 & H2 & Ha).
  pose proof (owned_sound c Hs) as Ho.
  pose proof (fresh_not_owned c h a Hs Hv) as Hfresh.
  destruct Hs as (Hnd & Hcc & Hcs).
  rewrite Ho in Hnd, Hfresh.
  remember (shapes a) as ss eqn:Ess.
  remember (currentLine a) as cl eqn:Ecl.
  clear Hv Ess Ecl. subst a.
  unfold HeapCanvas.OnLeftDown, OnLeftDown, orphans_line, alloc.
  cbn [circleMode squareMode eraserMode rainbowMode currentLine shapeSize
       currentColor].
  assert (Hf1 : ~ In (length h) (HeapCanvas.shapes c)).
  { intros Hin. apply Hfresh, in_or_app. now left. }
  destruct (HeapCanvas.currentLine c) as [p|] eqn:El; simpl in H2.
  - (* a line is in progress *)
    destruct (load_line h p) as [l|] eqn:Ell; [|discriminate].
    injection H2 as <-.
    destruct (NoDup_snoc_inv _ _ Hnd) as [Hnd1 Hnin].
    destruct (HeapCanvas.circleMode c) eqn:Ec;
      [|destruct (HeapCanvas.squareMode c) eqn:Eq;
        [|destruct (HeapCanvas.eraserMode c) eqn:Ee]].
    + (* circle stamp: the old line gets the point *)
      destruct (add_point_after_alloc h
                  (ACircle (Circle.new pos (HeapCanvas.shapeSize c)
                              (HeapCanvas.currentColor c)))
                  p l pos _ _ Ell H1 Hnin)
        as (L1 & St & L2 & La & Lc & Hne).
      cbn [HeapCanvas.currentLine HeapCanvas.Refresh
             HeapCanvas.set_currentCircle HeapCanvas.push_back
             HeapCanvas.set_shapes].
      rewrite El, L1. cbn [bind]. rewrite St. cbn [bind].
      eexists. eexists. split; [reflexivity|].
      split; [split|split].
      * unfold HeapCanvas.sound, HeapCanvas.owned. simpl.
        rewrite El, Hcs. simpl. repeat split.
        apply NoDup_snoc.
        -- now apply NoDup_snoc.
        -- intros Hin. apply in_app_or in Hin.
           destruct Hin as [Hin|[Hin|[]]]; [now apply Hnin|now apply Hne].
      * erewrite view_intro;
          [simpl; rewrite ?Ec, ?Eq, ?Ee; reflexivity
          | exact La | simpl | reflexivity | exact Hcs].
        rewrite El. simpl. now rewrite L2.
      * exact Lc.
      * unfold HeapCanvas.owned. simpl. rewrite El, Hcc, Hcs. simpl.
        rewrite !length_app. simpl. lia.
    + (* square stamp: the old line gets the point *)
      destruct (add_point_after_alloc h
                  (ASquare (Square.new pos (HeapCanvas.shapeSize c)
                              (HeapCanvas.currentColor c)))
                  p l pos _ _ Ell H1 Hnin)
        as (L1 & St & L2 & La & Lc & Hne).
      cbn [HeapCanvas.currentLine HeapCanvas.Refresh
             HeapCanvas.set_currentSquare HeapCanvas.push_back
             HeapCanvas.set_shapes].
      rewrite El, L1. cbn [bind]. rewrite St. cbn [bind].
      eexists. eexists. split; [reflexivity|].
      split; [split|split].
      * unfold HeapCanvas.sound, HeapCanvas.owned. simpl.
        rewrite El, Hcc. simpl. repeat split.
        apply NoDup_snoc.
        -- now apply NoDup_snoc.
        -- intros Hin. apply in_app_or in Hin.
           destruct Hin as [Hin|[Hin|[]]]; [now apply Hnin|now apply Hne].
      * erewrite view_intro;
          [simpl; rewrite ?Ec, ?Eq, ?Ee; reflexivity
          | exact La | simpl | exact Hcc | reflexivity].
        rewrite El. simpl. now rewrite L2.
      * exact Lc.
      * unfold HeapCanvas.owned. simpl. rewrite El, Hcc, Hcs. simpl.
        rewrite !length_app. simpl. lia.
    + (* eraser: a new line replaces the pointer to the old one *)
      destruct (add_point_to_new_line h (FreehandLine.new wxWHITE false)
                  pos _ _ H1)
        as (L1 & St & L2 & La & Lc).
      cbn [HeapCanvas.currentLine HeapCanvas.set_currentLine].
      rewrite L1. cbn [bind]. rewrite St. cbn [bind].
      eexists. eexists. split; [reflexivity|].
      split; [split|split].
      * unfold HeapCanvas.sound, HeapCanvas.owned. simpl.
        rewrite Hcc, Hcs. simpl. repeat split.
        now apply NoDup_snoc.
      * erewrite view_intro;
          [simpl; rewrite ?Ec, ?Eq, ?Ee; reflexivity
          | exact La | simpl | exact Hcc | exact Hcs].
        now rewrite L2.
      * exact Lc.
      * unfold HeapCanvas.owned. simpl. rewrite El, Hcc, Hcs. simpl.
        rewrite !length_app. simpl. lia.
    + (* plain or rainbow: likewise *)
      destruct (add_point_to_new_line h
                  (FreehandLine.new (HeapCanvas.currentColor c)
                     (HeapCanvas.rainbowMode c))
                  pos _ _ H1)
        as (L1 & St & L2 & La & Lc).
      cbn [HeapCanvas.currentLine HeapCanvas.set_currentLine].
      rewrite L1. cbn [bind]. rewrite St. cbn [bind].
      eexists. eexists. split; [reflexivity|].
      split; [split|split].
      * unfold HeapCanvas.sound, HeapCanvas.owned. simpl.
        rewrite Hcc, Hcs. simpl. repeat split.
        now apply NoDup_snoc.
      * erewrite view_intro;
          [simpl; rewrite ?Ec, ?Eq, ?Ee; reflexivity
          | exact La | simpl | exact Hcc | exact Hcs].
        now rewrite L2.
      * exact Lc.
      * unfold HeapCanvas.owned. simpl. rewrite El, Hcc, Hcs. simpl.
        rewrite !length_app. simpl. lia.
  - (* nothing is in progress *)
    injection H2 as <-. rewrite app_nil_r in Hnd.
    destruct (HeapCanvas.circleMode c) eqn:Ec;
      [|destruct (HeapCanvas.squareMode c) eqn:Eq;
        [|destruct (HeapCanvas.eraserMode c) eqn:Ee]].
    + cbn [HeapCanvas.currentLine HeapCanvas.Refresh
             HeapCanvas.set_currentCircle HeapCanvas.push_back
             HeapCanvas.set_shapes].
      rewrite El.
      eexists. eexists. split; [reflexivity|].
      split; [split|split].
      * unfold HeapCanvas.sound, HeapCanvas.owned. simpl.
        rewrite El, Hcs. simpl. rewrite app_nil_r. repeat split.
        now apply NoDup_snoc.
      * erewrite view_intro;
          [simpl; rewrite ?Ec, ?Eq, ?Ee; reflexivity
          | simpl; apply load_all_snoc_fresh, H1
          | simpl | reflexivity | exact Hcs].
        now rewrite El.
      * apply live_count_alloc.
      * unfold HeapCanvas.owned. simpl. rewrite El, Hcc, Hcs. simpl.
        rewrite !length_app. simpl. lia.
    + cbn [HeapCanvas.currentLine HeapCanvas.Refresh
             HeapCanvas.set_currentSquare HeapCanvas.push_back
             HeapCanvas.set_shapes].
      rewrite El.
      eexists. eexists. split; [reflexivity|].
      split; [split|split].
      * unfold HeapCanvas.sound, HeapCanvas.owned. simpl.
        rewrite El, Hcc. simpl. rewrite app_nil_r. repeat split.
        now apply NoDup_snoc.
      * erewrite view_intro;
          [simpl; rewrite ?Ec, ?Eq, ?Ee; reflexivity
          | simpl; apply load_all_snoc_fresh, H1
          | simpl | exact Hcc | reflexivity].
        now rewrite El.
      * apply live_count_alloc.
      * unfold HeapCanvas.owned. simpl. rewrite El, Hcc, Hcs. simpl.
        rewrite !length_app. simpl. lia.
    + destruct (add_point_to_new_line h (FreehandLine.new wxWHITE false)
                  pos _ _ H1)
        as (L1 & St & L2 & La & Lc).
      cbn [HeapCanvas.currentLine HeapCanvas.set_currentLine].
      rewrite L1. cbn [bind]. rewrite St. cbn [bind].
      eexists. eexists. split; [reflexivity|].
      split; [split|split].
      * unfold HeapCanvas.sound, HeapCanvas.owned. simpl.
        rewrite Hcc, Hcs. simpl. repeat split.
        now apply NoDup_snoc.
      * erewrite view_intro;
          [simpl; rewrite ?Ec, ?Eq, ?Ee; reflexivity
          | exact La | simpl | exact Hcc | exact Hcs].
        now rewrite L2.
      * exact Lc.
      * unfold HeapCanvas.owned. simpl. rewrite El, Hcc, Hcs. simpl.
        rewrite !length_app. simpl. lia.
    + destruct (add_point_to_new_line h
                  (FreehandLine.new (HeapCanvas.currentColor c)
                     (HeapCanvas.rainbowMode c))
                  pos _ _ H1)
        as (L1 & St & L2 & La & Lc).
      cbn [HeapCanvas.currentLine HeapCanvas.set_currentLine].
      rewrite L1. cbn [bind]. rewrite St. cbn [bind].
      eexists. eexists. split; [reflexivity|].
      split; [split|split].
      * unfold HeapCanvas.sound, HeapCanvas.owned. simpl.
        rewrite Hcc, Hcs. simpl. repeat split.
        now apply NoDup_snoc.
      * erewrite view_intro;
          [simpl; rewrite ?Ec, ?Eq, ?Ee; reflexivity
          | exact La | simpl | exact Hcc | exact Hcs].
        now rewrite L2.
      * exact Lc.
      * unfold HeapCanvas.owned. simpl. rewrite El, Hcc, Hcs. simpl.
        rewrite !length_app. simpl. lia.
Qed.

Lemma menu_refines (f : HeapCanvas.t -> HeapCanvas.t)
  (f' : PaintCanvas.t -> PaintCanvas.t) (c : HeapCanvas.t) (h : heap)
  (a : PaintCanvas.t) :
  (forall x, HeapCanvas.shapes (f x) = HeapCanvas.shapes x
             /\ HeapCanvas.currentLine (f x) = HeapCanvas.currentLine x
             /\ HeapCanvas.currentCircle (f x) = HeapCanvas.currentCircle x
             /\ HeapCanvas.currentSquare (f x) = HeapCanvas.currentSquare x) ->
  (forall ss l,
     f' (PaintCanvas.mk ss l None None
           (HeapCanvas.currentColor c) (HeapCanvas.rainbowMode c)
           (HeapCanvas.eraserMode c) (HeapCanvas.circleMode c)
           (HeapCanvas.squareMode c) (HeapCanvas.shapeSize c)
           (HeapCanvas.refreshes c))
     = PaintCanvas.mk ss l None None
         (HeapCanvas.currentColor (f c)) (HeapCanvas.rainbowMode (f c))
         (HeapCanvas.eraserMode (f c)) (HeapCanvas.circleMode (f c))
         (HeapCanvas.squareMode (f c)) (HeapCanvas.shapeSize (f c))
         (HeapCanvas.refreshes (f c))) ->
  agrees c h a ->
  agrees (f c) h (f' a) /\ HeapCanvas.owned (f c) = HeapCanvas.owned c.
Proof.
  intros Hf Hf' [Hs Hv]. destruct (view_inv c h a Hs Hv) as (H1 & H2 & Ha).
  destruct (Hf c) as (F1 & F2 & F3 & F4).
  assert (Ho : HeapCanvas.owned (f c) = HeapCanvas.owned c).
  { unfold HeapCanvas.owned. now rewrite F1, F2, F3, F4. }
  destruct Hs as (Hnd & Hcc & Hcs).
  split; [split|exact Ho].
  - unfold HeapCanvas.sound. rewrite Ho, F3, F4. auto.
  - rewrite Ha, Hf'. apply view_intro; congruence.
Qed.

Lemma step_refines (ord : eval_order) (e : event) (c : HeapCanvas.t)
  (h : heap) (g : RandSrc) (a : PaintCanvas.t) :
  agrees c h a ->
  exists c' h',
    HeapCanvas.step ord e (c, h, g)
    = Some (c', h', snd (step ord e (a, g)))
    /\ agrees c' h' (fst (step ord e (a, g)))
    /\ (live_count h' + length (HeapCanvas.owned c)
        = live_count h + length (HeapCanvas.owned c')
          + Nat.b2n (orphans_line e a))%nat.
Proof.
  intros Hag. destruct e; simpl.
  - destruct (OnLeftDown_refines pos c h a Hag)
      as (c' & h' & E & Hag' & Hlc & Hown).
    exists c', h'. rewrite E. simpl. repeat split; try apply Hag'.
    simpl in Hown. lia.
  - destruct (OnMouseMove_refines ord pos c h g a Hag)
      as (c' & h' & E & Hag' & Hlc & Hown).
    exists c', h'. rewrite E. repeat split; try apply Hag'.
    rewrite Hlc, Hown. unfold orphans_line. simpl. lia.
  - destruct (OnLeftUp_refines pos c h a Hag)
      as (c' & h' & E & Hag' & Hlc & Hown).
    exists c', h'. rewrite E. simpl. repeat split; try apply Hag'.
    rewrite Hlc, Hown. unfold orphans_line. simpl. lia.
  - destruct (menu_refines (HeapCanvas.SetColor c0) (SetColor c0) c h a)
      as [Hag' Hown]; auto.
    exists (HeapCanvas.SetColor c0 c), h.
    repeat split; try apply Hag'. rewrite Hown. simpl. lia.
  - destruct (menu_refines HeapCanvas.EnableRainbowMode EnableRainbowMode
                c h a) as [Hag' Hown]; auto.
    exists (HeapCanvas.EnableRainbowMode c), h.
    repeat split; try apply Hag'. rewrite Hown. simpl. lia.
  - destruct (menu_refines HeapCanvas.EnableEraserMode EnableEraserMode
                c h a) as [Hag' Hown]; auto.
    exists (HeapCanvas.EnableEraserMode c), h.
    repeat split; try apply Hag'. rewrite Hown. simpl. lia.
  - destruct (menu_refines HeapCanvas.EnableCircleMode EnableCircleMode
                c h a) as [Hag' Hown]; auto.
    exists (HeapCanvas.EnableCircleMode c), h.
    repeat split; try apply Hag'. rewrite Hown. simpl. lia.
  - destruct (menu_refines HeapCanvas.EnableSquareMode EnableSquareMode
                c h a) as [Hag' Hown]; auto.
    exists (HeapCanvas.EnableSquareMode c), h.
    repeat split; try apply Hag'. rewrite Hown. simpl. lia.
Qed.

Lemma run_refines (ord : eval_order) (evs : list event)
  (c : HeapCanvas.t) (h : heap) (g : RandSrc) (a : PaintCanvas.t) :
  agrees c h a ->
  exists c' h',
    HeapCanvas.run ord evs (c, h, g)
    = Some (c', h', snd (run ord evs (a, g)))
    /\ agrees c' h' (fst (run ord evs (a, g)))
    /\ (live_count h' + length (HeapCanvas.owned c)
        = live_count h + length (HeapCanvas.owned c')
          + orphaned ord evs (a, g))%nat.
Proof.
  revert c h g a. induction evs as [|e evs IH]; intros c h g a Hag.
  - exists c, h. simpl. repeat split; try apply Hag. lia.
  - destruct (step_refines ord e c h g a Hag)
      as (c1 & h1 & E1 & Hag1 & Hc1).
    change (run ord (e :: evs) (a, g))
      with (run ord evs (step ord e (a, g))).
    change (orphaned ord (e :: evs) (a, g))
      with (Nat.b2n (orphans_line e a)
            + orphaned ord evs (step ord e (a, g)))%nat.
    destruct (step ord e (a, g)) as [a1 g1] eqn:Es. simpl in E1, Hag1.
    destruct (IH c1 h1 g1 a1 Hag1) as (c2 & h2 & E2 & Hag2 & Hc2).
    exists c2, h2. simpl HeapCanvas.run. rewrite E1. simpl bind.
    repeat split; try apply Hag2; try exact E2.
    lia.
Qed.

Lemma new_agrees : agrees HeapCanvas.new [] new.
Proof.
  split.
  - repeat split. constructor.
  - reflexivity.
Qed.

Lemma draw_all_view (h : heap) (ps : list nat) (ss : list Shape) :
  load_all h ps = Some ss ->
  HeapCanvas.draw_all h ps = Some (flat_map Shape_Draw ss).
Proof.
  revert ss. induction ps as [|p ps IH]; intros ss; simpl.
  - now intros [= <-].
  - destruct (load h p) as [s|]; [|discriminate].
    destruct (load_all h ps) as [xs|]; [|discriminate].
    intros [= <-]. simpl. now rewrite (IH xs eq_refl).
Qed.

Lemma OnPaint_refines (c : HeapCanvas.t) (h : heap) (a : PaintCanvas.t) :
  agrees c h a -> HeapCanvas.OnPaint c h = Some (OnPaint a).
Proof.
  intros [Hs Hv]. destruct (view_inv c h a Hs Hv) as (H1 & H2 & Ha).
  destruct Hs as (_ & Hcc & Hcs).
  assert (Hc1 : currentCircle a = None) by (rewrite Ha; reflexivity).
  assert (Hc2 : currentSquare a = None) by (rewrite Ha; reflexivity).
  clear Ha.
  unfold HeapCanvas.OnPaint, OnPaint.
  rewrite (draw_all_view h _ _ H1), Hcc, Hcs, Hc1, Hc2.
  destruct (HeapCanvas.currentLine c) as [p|]; simpl in *.
  - destruct (load_line h p) as [l|]; [|discriminate].
    injection H2 as <-. reflexivity.
  - injection H2 as <-. reflexivity.
Qed.

(** X9.  The program with its pointers does what the model without them
    says.  From a new canvas, every sequence of events runs to the end
    without going through a dangling or mistyped pointer; the canvas
    holds no pointer twice; replacing every pointer by its object gives
    exactly the canvas of the first model after the same events, with
    the same randomness left; and the redraw through the pointers is the
    redraw of the first model. *)
Theorem heap_canvas_refines (ord : eval_order) (history : list event)
  (g : RandSrc) :
  exists c h,
    HeapCanvas.run ord history (HeapCanvas.new, [], g)
    = Some (c, h, snd (run ord history (new, g)))
    /\ HeapCanvas.view c h = Some (fst (run ord history (new, g)))
    /\ HeapCanvas.OnPaint c h = Some (OnPaint (fst (run ord history (new, g))))
    /\ NoDup (HeapCanvas.owned c).
Proof.
  destruct (run_refines ord history HeapCanvas.new [] g new new_agrees)
    as (c & h & E & Hag & _).
  exists c, h. repeat split; auto.
  - apply Hag.
  - now apply OnPaint_refines.
  - apply Hag.
Qed.

(** ** The destructor *)

Lemma delete_all_app (ps qs : list nat) (h : heap) :
  delete_all (ps ++ qs) h = (h1 <- delete_all ps h ;; delete_all qs h1).
Proof.
  revert h. induction ps as [|p ps IH]; intros h; simpl.
  - reflexivity.
  - destruct (delete p h) as [h1|]; [apply IH|reflexivity].
Qed.

Lemma Destroy_owned (c : HeapCanvas.t) (h : heap) :
  HeapCanvas.Destroy c h = delete_all (HeapCanvas.owned c) h.
Proof.
  unfold HeapCanvas.Destroy, HeapCanvas.owned.
  rewrite delete_all_app.
  destruct (delete_all (HeapCanvas.shapes c) h) as [h0|]; [|reflexivity].
  simpl bind at 1.
  destruct (HeapCanvas.currentLine c) as [p|],
           (HeapCanvas.currentCircle c) as [k|],
           (HeapCanvas.currentSquare c) as [q|]; simpl;
    repeat match goal with
           | |- context [delete ?x ?y] =>
               destruct (delete x y); simpl; try reflexivity
           end;
    reflexivity.
Qed.

Lemma delete_all_spec (ps : list nat) (h : heap) :
  NoDup ps ->
  Forall (fun p => exists s, load h p = Some s) ps ->
  exists h',
    delete_all ps h = Some h'
    /\ (forall p, In p ps -> load h' p = None)
    /\ (forall p, ~ In p ps -> load h' p = load h p)
    /\ (live_count h' + length ps = live_count h)%nat.
Proof.
  revert h. induction ps as [|p ps IH]; intros h Hnd Hlive.
  - exists h. simpl. repeat split; auto. intros p [].
  - inversion Hnd as [|? ? Hnin Hnd']. subst.
    inversion Hlive as [|? ? [s Hs] Hlive']. subst.
    assert (Hlive1 : Forall (fun q => exists s, load (poke p Freed h) q
                                                = Some s) ps).
    { rewrite Forall_forall in *. intros q Hq.
      rewrite load_poke_other; [now apply Hlive'|].
      intros ->. contradiction. }
    destruct (IH (poke p Freed h) Hnd' Hlive1) as (h' & E & Hin & Hout & Hc).
    exists h'. simpl. unfold delete. rewrite Hs.
    split; [exact E|]. split; [|split].
    + intros q [<-|Hq].
      * rewrite (Hout p Hnin). apply load_poke_freed.
      * now apply Hin.
    + intros q Hq. rewrite Hout by (intros Hx; apply Hq; now right).
      apply load_poke_other. intros ->. apply Hq. now left.
    + pose proof (live_count_poke_freed p s h Hs). lia.
Qed.

Lemma load_all_live (h : heap) (ps : list nat) (ss : list Shape) :
  load_all h ps = Some ss ->
  Forall (fun p => exists s, load h p = Some s) ps.
Proof.
  revert ss. induction ps as [|p ps IH]; intros ss; simpl.
  - constructor.
  - destruct (load h p) as [x|] eqn:E; [|discriminate].
    destruct (load_all h ps) as [xs|]; [|discriminate].
    intros _. constructor; eauto.
Qed.

Lemma agrees_live (c : HeapCanvas.t) (h : heap) (a : PaintCanvas.t) :
  agrees c h a ->
  Forall (fun p => exists s, load h p = Some s) (HeapCanvas.owned c).
Proof.
  intros [Hs Hv]. destruct (view_inv c h a Hs Hv) as (H1 & H2 & _).
  rewrite (owned_sound c Hs). apply Forall_app. split.
  - eapply load_all_live; eauto.
  - destruct (HeapCanvas.currentLine c) as [p|]; [|constructor].
    simpl in H2. destruct (load_line h p) as [l|] eqn:E; [|discriminate].
    repeat constructor. exists (ALine l). now apply load_line_inv.
Qed.

(** X10.  The destructor is safe on every canvas reached from a new one:
    it deletes each pointer the canvas holds exactly once (no object is
    deleted twice, none that was never allocated), every object the
    canvas owned is gone afterwards, and no other object is touched.
    Running the deletions a second time on a canvas that owned anything
    has no result: it would delete a dead object. *)
Theorem destructor_deletes_each_owned_once (ord : eval_order)
  (history : list event) (g : RandSrc) :
  exists c h h',
    HeapCanvas.run ord history (HeapCanvas.new, [], g)
    = Some (c, h, snd (run ord history (new, g)))
    /\ HeapCanvas.Destroy c h = Some h'
    /\ length (HeapCanvas.owned c)
       = (length (shapes (fst (run ord history (new, g))))
          + match currentLine (fst (run ord history (new, g))) with
            | Some _ => 1
            | None => 0
            end)%nat
    /\ (forall p, In p (HeapCanvas.owned c) -> load h' p = None)
    /\ (forall p, ~ In p (HeapCanvas.owned c) -> load h' p = load h p)
    /\ (live_count h' + length (HeapCanvas.owned c) = live_count h)%nat
    /\ (HeapCanvas.owned c = [] \/ HeapCanvas.Destroy c h' = None).
Proof.
  destruct (run_refines ord history HeapCanvas.new [] g new new_agrees)
    as (c & h & E & Hag & _).
  destruct (delete_all_spec (HeapCanvas.owned c) h)
    as (h' & Ed & Hin & Hout & Hc).
  { apply Hag. }
  { eapply agrees_live; eauto. }
  exists c, h, h'. rewrite Destroy_owned.
  split; [exact E|]. split; [exact Ed|]. split; [|split; [exact Hin|]].
  - destruct Hag as [Hs Hv].
    destruct (view_inv c h _ Hs Hv) as (H1 & H2 & _).
    rewrite (owned_sound c Hs), length_app. f_equal.
    + clear - H1. revert H1.
      generalize (shapes (fst (run ord history (new, g)))).
      induction (HeapCanvas.shapes c) as [|p ps IH]; intros ss; simpl.
      * now intros [= <-].
      * destruct (load h p); [|discriminate].
        destruct (load_all h ps) as [xs|]; [|discriminate].
        intros [= <-]. simpl. f_equal. now apply IH.
    + destruct (HeapCanvas.currentLine c) as [p|]; simpl in H2.
      * destruct (load_line h p); [|discriminate].
        now injection H2 as <-.
      * now injection H2 as <-.
  - split; [exact Hout|]. split; [exact Hc|].
    destruct (HeapCanvas.owned c) as [|p ps] eqn:Eo; [now left|right].
    rewrite Destroy_owned, Eo. simpl. unfold delete.
    rewrite (Hin p); [reflexivity|now left].
Qed.

Lemma destructor_deletes_each_owned_once_witness :
  exists c h h',
    HeapCanvas.run Order_RGB [PickCircle; LeftDown (mkPoint 1 1)]
      (HeapCanvas.new, [], zero_source)
    = Some (c, h, zero_source)
    /\ HeapCanvas.Destroy c h = Some h'
    /\ load h 0 = Some (ACircle (Circle.new (mkPoint 1 1) 50 wxBLACK))
    /\ load h' 0 = None.
Proof.
  destruct (destructor_deletes_each_owned_once Order_RGB
              [PickCircle; LeftDown (mkPoint 1 1)] zero_source)
    as (c & h & h' & E & D & _ & Hin & _).
  exists c, h, h'.
  split; [exact E|]. split; [exact D|].
  simpl in E. injection E as <- <-.
  split; [reflexivity|]. apply Hin. left. reflexivity.
Defined.

(** X11.  What the destructor leaves allocated is exactly the lines
    orphaned during the run: one for each pointer-down that arrived with
    no stamp mode selected while a line was still in progress, whose
    pointer it overwrote.  Every other object ever allocated is either
    still owned, and then deleted by the destructor, or none; so a run in
    which every freehand pointer-down found the slot empty leaks
    nothing. *)
Theorem leaked_objects_are_orphaned_lines (ord : eval_order)
  (history : list event) (g : RandSrc) :
  exists c h h',
    HeapCanvas.run ord history (HeapCanvas.new, [], g)
    = Some (c, h, snd (run ord history (new, g)))
    /\ HeapCanvas.Destroy c h = Some h'
    /\ live_count h' = orphaned ord history (new, g)
    /\ live_count h
       = (length (HeapCanvas.owned c) + orphaned ord history (new, g))%nat.
Proof.
  destruct (run_refines ord history HeapCanvas.new [] g new new_agrees)
    as (c & h & E & Hag & Hleak).
  destruct (delete_all_spec (HeapCanvas.owned c) h)
    as (h' & Ed & _ & _ & Hc).
  { apply Hag. }
  { eapply agrees_live; eauto. }
  exists c, h, h'. rewrite Destroy_owned.
  change (live_count []) with 0%nat in Hleak.
  change (length (HeapCanvas.owned HeapCanvas.new)) with 0%nat in Hleak.
  repeat split; auto; lia.
Qed.

Lemma released_presses_orphan_nothing (ord : eval_order)
  (evs : list event) (c : PaintCanvas.t) (g : RandSrc) (down : bool) :
  (down = false -> idle c) ->
  presses_released down evs = true ->
  orphaned ord evs (c, g) = 0%nat.
Proof.
  revert c g down. induction evs as [|e evs IH]; intros c g down Hi Hw.
  - reflexivity.
  - change (orphaned ord (e :: evs) (c, g))
      with (Nat.b2n (orphans_line e c)
            + orphaned ord evs (step ord e (c, g)))%nat.
    destruct e; simpl in Hw.
    + apply andb_prop in Hw. destruct Hw as [Hd Hw].
      destruct down; [discriminate|]. specialize (Hi eq_refl).
      unfold orphans_line, idle in *. rewrite Hi. simpl.
      now apply (IH _ g true).
    + unfold orphans_line.
      replace (Nat.b2n false) with 0%nat by reflexivity. simpl.
      destruct (OnMouseMove ord pos c g) as [c1 g1] eqn:E.
      apply (IH c1 g1 down); auto.
      intros Hd. specialize (Hi Hd).
      rewrite (OnMouseMove_idle ord pos c g Hi) in E.
      now injection E as <- <-.
    + unfold orphans_line. simpl.
      apply (IH _ g false); auto. intros _. apply OnLeftUp_clears.
    + unfold orphans_line. simpl. apply (IH _ g down); auto.
    + unfold orphans_line. simpl. apply (IH _ g down); auto.
    + unfold orphans_line. simpl. apply (IH _ g down); auto.
    + unfold orphans_line. simpl. apply (IH _ g down); auto.
    + unfold orphans_line. simpl. apply (IH _ g down); auto.
Qed.

(** X12.  If every press is released before the next press (no
    pointer-down arrives while the button is down), then after the
    destructor nothing that the canvas allocated is left: every circle,
    square and line was owned by the canvas and has been deleted. *)
Theorem released_presses_leak_nothing (ord : eval_order)
  (history : list event) (g : RandSrc) :
  presses_released false history = true ->
  exists c h h',
    HeapCanvas.run ord history (HeapCanvas.new, [], g)
    = Some (c, h, snd (run ord history (new, g)))
    /\ HeapCanvas.Destroy c h = Some h'
    /\ live_count h = length (HeapCanvas.owned c)
    /\ live_count h' = 0%nat
    /\ (forall p, load h' p = None).
Proof.
  intros Hw.
  destruct (run_refines ord history HeapCanvas.new [] g new new_agrees)
    as (c & h & E & Hag & Hleak).
  destruct (delete_all_spec (HeapCanvas.owned c) h)
    as (h' & Ed & Hin & Hout & Hc).
  { apply Hag. }
  { eapply agrees_live; eauto. }
  change (live_count []) with 0%nat in Hleak.
  change (length (HeapCanvas.owned HeapCanvas.new)) with 0%nat in Hleak.
  rewrite (released_presses_orphan_nothing ord history new g false) in Hleak;
    [|reflexivity|exact Hw].
  exists c, h, h'. rewrite Destroy_owned.
  assert (Hz : live_count h' = 0%nat) by lia.
  repeat split; auto; try lia.
  intros p. clear - Hz. revert p.
  induction h' as [|x h' IH]; intros p.
  - unfold load. now destruct p.
  - unfold live_count in Hz. simpl in Hz.
    destruct x as [s|]; [discriminate|].
    destruct p as [|p]; [reflexivity|]. apply (IH Hz p).
Qed.

Lemma released_presses_leak_nothing_witness :
  exists c h h',
    HeapCanvas.run Order_RGB
      [PickCircle; LeftDown (mkPoint 1 1); LeftUp (mkPoint 1 1);
       PickRainbow; LeftDown (mkPoint 2 2); MouseMove (mkPoint 3 3)]
      (HeapCanvas.new, [], counting_source)
    = Some (c, h,
            snd (run Order_RGB
                   [PickCircle; LeftDown (mkPoint 1 1); LeftUp (mkPoint 1 1);
                    PickRainbow; LeftDown (mkPoint 2 2);
                    MouseMove (mkPoint 3 3)]
                   (new, counting_source)))
    /\ HeapCanvas.Destroy c h = Some h'
    /\ live_count h = length (HeapCanvas.owned c)
    /\ live_count h' = 0%nat
    /\ (forall p, load h' p = None).
Proof.
  apply (released_presses_leak_nothing Order_RGB
           [PickCircle; LeftDown (mkPoint 1 1); LeftUp (mkPoint 1 1);
            PickRainbow; LeftDown (mkPoint 2 2); MouseMove (mkPoint 3 3)]
           counting_source).
  reflexivity.
Defined.

(** ** Colours stay within their channels *)

Lemma wxColor_rgb_valid (r g b : Z) : valid_color (wxColor_rgb r g b).
Proof.
  unfold valid_color, wxColor_rgb, to_uchar. simpl.
  repeat split; apply Z.mod_pos_bound; lia.
Qed.

Lemma UpdateRainbowColor_valid (ord : eval_order) (l : FreehandLine.t)
  (g : RandSrc) :
  valid_color (FreehandLine.color l) ->
  valid_color
    (FreehandLine.color (fst (FreehandLine.UpdateRainbowColor ord l g))).
Proof.
  intros H. unfold FreehandLine.UpdateRainbowColor.
  destruct (FreehandLine.rainbowMode l); simpl; auto.
  destruct (assign_args ord _ _ _) as [[r gr] b]. simpl.
  apply wxColor_rgb_valid.
Qed.

Lemma step_valid_colors (ord : eval_order) (e : event)
  (st : PaintCanvas.t * RandSrc) :
  carries_valid_color e ->
  valid_color (currentColor (fst st))
  /\ Forall (fun s => valid_color (Shape_color s)) (displayed (fst st)) ->
  valid_color (currentColor (fst (step ord e st)))
  /\ Forall (fun s => valid_color (Shape_color s))
       (displayed (fst (step ord e st))).
Proof.
  destruct st as [c g]. unfold displayed. simpl. intros He [Hc Hd].
  apply Forall_app in Hd. destruct Hd as [Hs Hl].
  destruct e; simpl;
    try solve [split; [auto|apply Forall_app; split; auto]].
  - (* LeftDown *)
    assert (Hl' : forall l, currentLine c = Some l ->
                            valid_color (FreehandLine.color l)).
    { intros l El. rewrite El in Hl. now inversion Hl. }
    unfold OnLeftDown.
    destruct (circleMode c) eqn:Ec;
      [|destruct (squareMode c) eqn:Es; [|destruct (eraserMode c) eqn:Ee]];
      simpl; destruct (currentLine c) as [l|] eqn:El; simpl;
      (split; [exact Hc|]); rewrite ?El;
      repeat (apply Forall_app; split); try exact Hs;
      try apply Forall_nil;
      (apply Forall_cons; [|apply Forall_nil]); simpl;
      solve [exact Hc | apply wxColor_rgb_valid | now apply Hl'].
  - (* MouseMove *)
    unfold OnMouseMove. destruct (currentLine c) as [l|] eqn:El; simpl.
    + destruct (rainbowMode c); simpl.
      * destruct (FreehandLine.UpdateRainbowColor ord l g) as [l1 g1] eqn:E.
        simpl. split; [exact Hc|]. apply Forall_app. split; [exact Hs|].
        apply Forall_cons; [|apply Forall_nil]. simpl.
        change l1 with (fst (l1, g1)). rewrite <- E.
        apply UpdateRainbowColor_valid. now inversion Hl.
      * split; [exact Hc|]. apply Forall_app. split; [exact Hs|].
        apply Forall_cons; [|apply Forall_nil]. simpl. now inversion Hl.
    + rewrite El. split; [exact Hc|]. apply Forall_app. now split.
  - (* LeftUp *)
    unfold OnLeftUp. destruct (currentLine c) as [l|] eqn:El; simpl.
    + split; [exact Hc|]. rewrite app_nil_r. apply Forall_app.
      split; [exact Hs|]. apply Forall_cons; [|apply Forall_nil]. simpl. now inversion Hl.
    + rewrite El. split; [exact Hc|]. apply Forall_app. now split.
Qed.

(** X13.  If every colour picked is a valid colour (channels within
    0..255, as the three colours of the menu are), then on every canvas
    reached from a new one the current colour and the colour of every
    shape of the document and of the line in progress are valid: the
    eraser's white and every rainbow colour included. *)
Theorem colours_stay_valid (ord : eval_order) (history : list event)
  (g : RandSrc) :
  Forall carries_valid_color history ->
  let c := fst (run ord history (new, g)) in
  valid_color (currentColor c)
  /\ Forall (fun s => valid_color (Shape_color s)) (displayed c).
Proof.
  intros H. cbv zeta.
  assert (Hgen : forall st,
             valid_color (currentColor (fst st))
             /\ Forall (fun s => valid_color (Shape_color s))
                  (displayed (fst st)) ->
             valid_color (currentColor (fst (run ord history st)))
             /\ Forall (fun s => valid_color (Shape_color s))
                  (displayed (fst (run ord history st)))).
  { induction H as [|e evs He _ IH]; intros st Hst; simpl; auto.
    apply IH. now apply step_valid_colors. }
  apply Hgen. split.
  - apply wxColor_rgb_valid.
  - constructor.
Qed.

Lemma colours_stay_valid_witness :
  valid_color
    (currentColor
       (fst (run Order_RGB
               [PickColor wxRED; PickRainbow; LeftDown (mkPoint 0 0);
                MouseMove (mkPoint 1 1)]
               (new, counting_source)))).
Proof.
  apply (colours_stay_valid Order_RGB
           [PickColor wxRED; PickRainbow; LeftDown (mkPoint 0 0);
            MouseMove (mkPoint 1 1)]
           counting_source).
  repeat constructor; vm_compute; intuition discriminate.
Defined.

(** ** The menu *)

(** X14.  For every value of [wxID_HIGHEST], the seven menu entries of
    [MyApp::OnInit] have pairwise distinct IDs, every entry reaches
    exactly one handler, the one for its label (Red, Green and Blue set
    the colour of that name, the four mode entries enable their mode),
    every colour the menu can pick is a valid colour, and an ID that
    belongs to no entry reaches no handler. *)
Theorem menu_entries_reach_their_handlers (hi : Z) :
  NoDup (map fst (menu_entries hi))
  /\ map (fun it => (snd it, on_menu hi (fst it))) (menu_entries hi)
     = [("Red"%string, [PickColor wxRED]);
        ("Green"%string, [PickColor wxGREEN]);
        ("Blue"%string, [PickColor wxBLUE]);
        ("Rainbow Brush"%string, [PickRainbow]);
        ("Eraser"%string, [PickEraser]);
        ("Draw Circle"%string, [PickCircle]);
        ("Draw Square"%string, [PickSquare])]
  /\ Forall carries_valid_color (map snd (menu_handlers hi))
  /\ (forall id, ~ In id (map fst (menu_entries hi)) -> on_menu hi id = []).
Proof.
  unfold menu_entries, menu_bar, on_menu, menu_handlers,
    ID_COLOR_RED, ID_COLOR_GREEN, ID_COLOR_BLUE, ID_MODE_RAINBOW,
    ID_MODE_ERASER, ID_MODE_CIRCLE, ID_MODE_SQUARE.
  simpl. split; [|split; [|split]].
  - repeat constructor; simpl; intuition lia.
  - repeat match goal with
           | |- context [?x =? ?y] =>
               destruct (Z.eqb_spec x y); try lia
           end.
    reflexivity.
  - repeat (apply Forall_cons;
            [simpl; first [apply wxColor_rgb_valid | exact I]|]).
    apply Forall_nil.
  - intros id Hid.
    repeat match goal with
           | |- context [?x =? ?y] =>
               destruct (Z.eqb_spec x y);
                 [exfalso; apply Hid; subst; intuition auto|]
           end.
    reflexivity.
Qed.

Lemma menu_entries_reach_their_handlers_witness :
  on_menu 5999 6003 = [PickRainbow] /\ on_menu 5999 0 = [].
Proof.
  split.
  - reflexivity.
  - apply (menu_entries_reach_their_handlers 5999).
    simpl. unfold ID_COLOR_RED, ID_COLOR_GREEN, ID_COLOR_BLUE,
      ID_MODE_RAINBOW, ID_MODE_ERASER, ID_MODE_CIRCLE, ID_MODE_SQUARE.
    intuition discriminate.
Defined.
